(** * widgets_multilayout: the dt_charger UI framework and IR command manager

    A shallow embedding of the widget / screen / UI-manager classes of
    [new1/examples/dt_charger] (the original [ui_framework.h] and its two
    refactor generations) and of [IRCommandManager], followed by the
    properties of focus tracking, dirty-only redraw, input routing and
    repeat-code debouncing.

    Conventions.
    - The target is a 32-bit board: [size_t], [uint32_t] and [unsigned long]
      are 32-bit unsigned.  Machine integers are [Z] values with the
      wrap-around written where the code computes.
    - A [std::vector] is a [list]; [v[i]] is a checked lookup that yields
      [None] where the C++ access would be out of range (undefined
      behaviour), so functions that index a vector return an [option].
    - A [std::function<void()>] is opaque: it is modelled by an identifier,
      an empty function object by [None], and every call is recorded in the
      list of identifiers the operation returns.
    - [millis()] is an input: operations that read the clock take the value
      it returned. *)

From stdpp Require Import base option list strings.
From Stdlib Require Import ZArith Lia.

Open Scope Z_scope.

(** ** Machine integers *)

Definition to_uint32 (z : Z) : Z := z mod 2 ^ 32.
Definition to_size_t (z : Z) : Z := z mod 2 ^ 32.
Definition to_int16 (z : Z) : Z := (z + 2 ^ 15) mod 2 ^ 16 - 2 ^ 15.

(** ** std::vector *)

Definition vec_size {A} (v : list A) : Z := Z.of_nat (length v).

Definition vec_at {A} (v : list A) (i : Z) : option A :=
  if i <? 0 then None else v !! Z.to_nat i.

Definition vec_store {A} (v : list A) (i : Z) (a : A) : list A :=
  <[Z.to_nat i := a]> v.

(** The [max_size()] of a libstdc++ vector of pointers on this target:
    [PTRDIFF_MAX] divided by the 4 bytes of a pointer. *)
Definition vector_max_size : Z := (2 ^ 31 - 1) / 4.

(** ** std::function<void()> *)

Definition Callback : Type := nat.

(** [if (f) f();] *)
Definition call_if_set (f : option Callback) : list Callback :=
  match f with
  | Some c => [c]
  | None => []
  end.

(** ** IR_CommandManager.h *)

Module IRCodes.
Definition UP : Z := 0xFF629D.
Definition DOWN : Z := 0xFFA857.
Definition LEFT : Z := 0xFF22DD.
Definition RIGHT : Z := 0xFFC23D.
Definition OK : Z := 0xFF02FD.
Definition RED : Z := 0xF720DF.
Definition GREEN : Z := 0xA720DF.
Definition BLUE : Z := 0x6720DF.
End IRCodes.

Record CommandMapping : Type := {
  code : Z;
  handler : option Callback;
  description : string
}.

Record IRCommandManager : Type := {
  commandMappings : list CommandMapping;
  lastCode : Z;
  lastCommandTime : Z
}.

Definition REPEAT_DELAY : Z := 250.

(** The literal [0xFFFFFFFF] that [handleCommand] compares against. *)
Definition REPEAT_CODE : Z := 0xFFFFFFFF.

(** Default member initialisers: no mappings, [lastCode = 0],
    [lastCommandTime = 0]. *)
Definition IRCommandManager_new : IRCommandManager :=
  {| commandMappings := []; lastCode := 0; lastCommandTime := 0 |}.

Definition addCommand (m : IRCommandManager) (c : Z) (h : option Callback)
    (d : string) : IRCommandManager :=
  {| commandMappings :=
       commandMappings m ++ [{| code := c; handler := h; description := d |}];
     lastCode := lastCode m;
     lastCommandTime := lastCommandTime m |}.

Definition clearCommands (m : IRCommandManager) : IRCommandManager :=
  {| commandMappings := [];
     lastCode := lastCode m;
     lastCommandTime := lastCommandTime m |}.

(** The [for] loop of [handleCommand]: the first mapping whose code equals
    [c], if any. *)
Fixpoint first_mapping (ms : list CommandMapping) (c : Z) : option CommandMapping :=
  match ms with
  | [] => None
  | mapping :: rest =>
      if code mapping =? c then Some mapping else first_mapping rest c
  end.

(** What one call of [handleCommand] produces: its return value, the
    handlers it called, and the manager afterwards. *)
Record Dispatch : Type := {
  matched : bool;
  invoked : list Callback;
  after : IRCommandManager
}.

(** The first [if] of [handleCommand]: the code to look up, or [None] for
    the early [return false].  The subtraction is on [unsigned long]. *)
Definition effective_code (m : IRCommandManager) (currentTime c : Z) : option Z :=
  if c =? REPEAT_CODE then
    if negb (lastCode m =? 0)
       && (REPEAT_DELAY <=? to_uint32 (currentTime - lastCommandTime m))
    then Some (lastCode m)
    else None
  else Some c.

(** [handleCommand(code)], with [currentTime] the value of [millis()].  The
    [repeat] parameter is assigned but never read, so it is left out. *)
Definition handleCommand (m : IRCommandManager) (currentTime c : Z) : Dispatch :=
  match effective_code m currentTime c with
  | None => {| matched := false; invoked := []; after := m |}
  | Some c' =>
      match first_mapping (commandMappings m) c' with
      | Some mapping =>
          {| matched := true;
             invoked := call_if_set (handler mapping);
             after := {| commandMappings := commandMappings m;
                         lastCode := c';
                         lastCommandTime := currentTime |} |}
      | None => {| matched := false; invoked := []; after := m |}
      end
  end.

(** A code is registered when some mapping carries it. *)
Definition registered (c : Z) (m : IRCommandManager) : Prop :=
  ∃ mapping, mapping ∈ commandMappings m ∧ code mapping = c.

(** Calls on a command manager, for runs of several calls. *)
Inductive TableOp : Type :=
  | OpAddCommand (c : Z) (h : option Callback) (d : string)
  | OpClearCommands
  | OpHandleCommand (currentTime c : Z).

(** One entry of a run's log: the code given to [handleCommand] and what
    the call answered. *)
Record Outcome : Type := {
  given : Z;
  answer : bool;
  calls : list Callback
}.

Fixpoint run_table (m : IRCommandManager) (ops : list TableOp)
    : list Outcome * IRCommandManager :=
  match ops with
  | [] => ([], m)
  | OpAddCommand c h d :: rest => run_table (addCommand m c h d) rest
  | OpClearCommands :: rest => run_table (clearCommands m) rest
  | OpHandleCommand t c :: rest =>
      let r := handleCommand m t c in
      let '(log, m') := run_table (after r) rest in
      ({| given := c; answer := matched r; calls := invoked r |} :: log, m')
  end.

(** ** Adafruit_SSD1306

    The display is the log of the calls made on it, oldest first. *)

Inductive Color : Type := BLACK | WHITE.

Inductive GfxOp : Type :=
  | ClearDisplay
  | DisplayFlush
  | SetTextColor (c : Color)
  | SetCursor (cx cy : Z)
  | Print (s : string)
  | DrawRect (rx ry rw rh : Z) (c : Color)
  | FillRect (rx ry rw rh : Z) (c : Color).

Definition Display : Type := list GfxOp.

Definition clearDisplay (display : Display) : Display := display ++ [ClearDisplay].

(** ** class Widget and class Screen

    The base class [Widget] and the members [addWidget] and [draw] of
    [Screen] have the same text in the three header files.  [K] is the data
    a subclass adds to the base class. *)

Record Widget (K : Type) : Type := {
  x : Z;
  y : Z;
  width : Z;
  height : Z;
  focused : bool;
  dirty : bool;
  kind : K
}.

Arguments x {K} _.
Arguments y {K} _.
Arguments width {K} _.
Arguments height {K} _.
Arguments focused {K} _.
Arguments dirty {K} _.
Arguments kind {K} _.

(** The pure virtual members, one class per member so that a header that
    declares only some of them can be modelled. *)
Class Drawable (K : Type) : Type :=
  draw : Widget K → Display → Display.

Class InputHandler (K I : Type) : Type :=
  handleInput : Widget K → I → list Callback.

Record Screen (K : Type) : Type := {
  widgets : list (Widget K);
  focusedWidgetIndex : Z
}.

Arguments widgets {K} _.
Arguments focusedWidgetIndex {K} _.

Section Framework.
Context {K : Type}.

(** [Widget(x, y, w, h)]: not focused, dirty. *)
Definition Widget_new (x0 y0 w h : Z) (k : K) : Widget K :=
  {| x := x0; y := y0; width := w; height := h;
     focused := false; dirty := true; kind := k |}.

Definition setFocus (focus : bool) (w : Widget K) : Widget K :=
  {| x := x w; y := y w; width := width w; height := height w;
     focused := focus; dirty := true; kind := kind w |}.

Definition isDirty (w : Widget K) : bool := dirty w.

Definition clearDirty (w : Widget K) : Widget K :=
  {| x := x w; y := y w; width := width w; height := height w;
     focused := focused w; dirty := false; kind := kind w |}.

(** [focusedWidgetIndex = 0], no widgets. *)
Definition Screen_new : Screen K :=
  {| widgets := []; focusedWidgetIndex := 0 |}.

(** [push_back], then [setFocus(true)] on the pushed widget when it is
    the only one. *)
Definition addWidget (s : Screen K) (widget : Widget K) : Screen K :=
  let pushed := widgets s ++ [widget] in
  {| widgets :=
       if vec_size pushed =? 1
       then widgets s ++ [setFocus true widget]
       else pushed;
     focusedWidgetIndex := focusedWidgetIndex s |}.

(** The loop of [Screen::draw] over the widgets from the front. *)
Fixpoint draw_widgets `{!Drawable K} (ws : list (Widget K)) (display : Display)
    : list (Widget K) * Display :=
  match ws with
  | [] => ([], display)
  | widget :: rest =>
      if isDirty widget then
        let '(rest', display') := draw_widgets rest (draw widget display) in
        (clearDirty widget :: rest', display')
      else
        let '(rest', display') := draw_widgets rest display in
        (widget :: rest', display')
  end.

Definition Screen_draw `{!Drawable K} (s : Screen K) (display : Display)
    : Screen K * Display :=
  let '(ws, display') := draw_widgets (widgets s) display in
  ({| widgets := ws; focusedWidgetIndex := focusedWidgetIndex s |}, display').
End Framework.

(** ** refactor/UI_Framework.h *)

Module Refactor.
Section Screen.
Context {K : Type} `{!InputHandler K Z}.

(** [Screen::handleInput(irCode)]: every code goes to the widget at
    [focusedWidgetIndex]; the screen itself is not touched. *)
Definition Screen_handleInput (s : Screen K) (irCode : Z)
    : option (list Callback * Screen K) :=
  if bool_decide (widgets s = []) then Some ([], s)
  else
    w ← vec_at (widgets s) (focusedWidgetIndex s);
    Some (handleInput w irCode, s).

(** [Screen::changeFocus(direction)].  The sum is computed in [size_t]:
    [direction] is converted to [size_t] and each addition wraps. *)
Definition changeFocus (direction : Z) (s : Screen K) : option (Screen K) :=
  if bool_decide (widgets s = []) then Some s
  else
    old ← vec_at (widgets s) (focusedWidgetIndex s);
    let ws := vec_store (widgets s) (focusedWidgetIndex s) (setFocus false old) in
    let index :=
      to_size_t (to_size_t (focusedWidgetIndex s + vec_size ws)
                 + to_size_t direction)
      mod vec_size ws in
    new ← vec_at ws index;
    Some {| widgets := vec_store ws index (setFocus true new);
            focusedWidgetIndex := index |}.

Definition navigateUp (s : Screen K) : option (Screen K) := changeFocus (-1) s.
Definition navigateDown (s : Screen K) : option (Screen K) := changeFocus 1 s.
End Screen.

Record UIManager (K : Type) : Type := {
  display : Display;
  irManager : IRCommandManager;
  screens : list (Screen K);
  currentScreenIndex : Z
}.

Arguments display {K} _.
Arguments irManager {K} _.
Arguments screens {K} _.
Arguments currentScreenIndex {K} _.

Definition addScreen {K} (ui : UIManager K) (screen : Screen K) : UIManager K :=
  {| display := display ui; irManager := irManager ui;
     screens := screens ui ++ [screen];
     currentScreenIndex := currentScreenIndex ui |}.

(** [UIManager::setScreen(index)], [index] a [size_t]. *)
Definition setScreen {K} (ui : UIManager K) (index : Z) : UIManager K :=
  if index <? vec_size (screens ui) then
    {| display := clearDisplay (display ui); irManager := irManager ui;
       screens := screens ui;
       currentScreenIndex := index |}
  else ui.
Section Update.
Context {K : Type} `{!InputHandler K Z} `{!Drawable K}.

(** The first statement of [UIManager::update()]: a decoded code goes to
    [irManager.handleCommand], and to [handleInput] of the current screen
    when that returned false and [currentScreenIndex] is in range.
    [decoded] is [None] when [irReceiver.decode()] is false, else the raw
    code; [currentTime] is what [millis()] returns inside
    [handleCommand]. *)
Definition update_input (ui : UIManager K) (currentTime : Z) (decoded : option Z)
    : option (list Callback * UIManager K) :=
  match decoded with
  | None => Some ([], ui)
  | Some code =>
      let r := handleCommand (irManager ui) currentTime code in
      if matched r then
        Some (invoked r,
              {| display := display ui; irManager := after r;
                 screens := screens ui;
                 currentScreenIndex := currentScreenIndex ui |})
      else if currentScreenIndex ui <? vec_size (screens ui) then
        screen ← vec_at (screens ui) (currentScreenIndex ui);
        '(called, screen') ← Screen_handleInput screen code;
        Some (invoked r ++ called,
              {| display := display ui; irManager := after r;
                 screens := vec_store (screens ui) (currentScreenIndex ui) screen';
                 currentScreenIndex := currentScreenIndex ui |})
      else
        Some (invoked r,
              {| display := display ui; irManager := after r;
                 screens := screens ui;
                 currentScreenIndex := currentScreenIndex ui |})
  end.

(** The rest of [UIManager::update()]: [clearDisplay()], [draw] of the
    current screen when [currentScreenIndex] is in range, [display()]. *)
Definition update_draw (ui : UIManager K) : option (UIManager K) :=
  let cleared := clearDisplay (display ui) in
  if currentScreenIndex ui <? vec_size (screens ui) then
    screen ← vec_at (screens ui) (currentScreenIndex ui);
    let '(screen', drawn) := Screen_draw screen cleared in
    Some {| display := drawn ++ [DisplayFlush]; irManager := irManager ui;
            screens := vec_store (screens ui) (currentScreenIndex ui) screen';
            currentScreenIndex := currentScreenIndex ui |}
  else
    Some {| display := cleared ++ [DisplayFlush]; irManager := irManager ui;
            screens := screens ui;
            currentScreenIndex := currentScreenIndex ui |}.

(** [UIManager::update()]; the second refactor has the same text. *)
Definition update (ui : UIManager K) (currentTime : Z) (decoded : option Z)
    : option (list Callback * UIManager K) :=
  '(called, ui') ← update_input ui currentTime decoded;
  ui'' ← update_draw ui';
  Some (called, ui'').
End Update.
End Refactor.

(** Calls on a [Screen] of the refactored framework, for runs of several
    calls.  [OpAddWidget] is [addWidget(new W(...))]: the widget comes
    straight from its constructor. *)
Inductive ScreenOp (K : Type) : Type :=
  | OpAddWidget (x0 y0 w h : Z) (k : K)
  | OpNavigate (direction : Z)
  | OpHandleInput (irCode : Z).

Arguments OpAddWidget {K} _ _ _ _ _.
Arguments OpNavigate {K} _.
Arguments OpHandleInput {K} _.

Section ScreenRuns.
Context {K : Type} `{!InputHandler K Z}.

(** One call: the callbacks it ran and the screen afterwards, or [None]
    when the call indexes [widgets] out of range. *)
Definition step_screen (s : Screen K) (op : ScreenOp K)
    : option (list Callback * Screen K) :=
  match op with
  | OpAddWidget x0 y0 w h k => Some ([], addWidget s (Widget_new x0 y0 w h k))
  | OpNavigate direction => s' ← Refactor.changeFocus direction s; Some ([], s')
  | OpHandleInput irCode => Refactor.Screen_handleInput s irCode
  end.

Fixpoint run_screen (s : Screen K) (ops : list (ScreenOp K))
    : option (list Callback * Screen K) :=
  match ops with
  | [] => Some ([], s)
  | op :: rest =>
      '(called, s') ← step_screen s op;
      '(called', s'') ← run_screen s' rest;
      Some (called ++ called', s'')
  end.
End ScreenRuns.

(** ** refactor/refactor2/UI_Framework.h *)

Module Refactor2.
(** The subclasses: [Label] adds [text] and [centered], [Button] adds
    [label] and [callback]. *)
Inductive WidgetKind : Type :=
  | Label (text : string) (centered : bool)
  | Button (label : string) (callback : option Callback).

(** Both constructors pass the height 10 to [Widget]. *)
Definition Label_new (x0 y0 w : Z) (text : string) (centered : bool)
    : Widget WidgetKind :=
  Widget_new x0 y0 w 10 (Label text centered).

Definition Button_new (x0 y0 w : Z) (label : string) (callback : option Callback)
    : Widget WidgetKind :=
  Widget_new x0 y0 w 10 (Button label callback).

(** [Label::draw].  [text.length()] is [unsigned int], so the centring
    offset is computed unsigned and then narrowed to [int16_t]. *)
Definition Label_draw (w : Widget WidgetKind) (text : string) (centered : bool)
    (display : Display) : Display :=
  let display := display ++ [SetTextColor WHITE] in
  let display :=
    if centered then
      let textX :=
        to_int16
          (to_uint32
             (x w
              + to_uint32 (width w - to_uint32 (Z.of_nat (String.length text) * 6))
                / 2)) in
      display ++ [SetCursor textX (y w)]
    else display ++ [SetCursor (x w) (y w)] in
  display ++ [Print text].

(** [Button::draw].  The arguments of the GFX calls are [int16_t]. *)
Definition Button_draw (w : Widget WidgetKind) (label : string)
    (display : Display) : Display :=
  let display := display ++ [DrawRect (x w) (y w) (width w) (height w) WHITE] in
  let display :=
    if focused w then
      (display
       ++ [FillRect (to_int16 (x w + 2)) (to_int16 (y w + 2))
                    (to_int16 (width w - 4)) (to_int16 (height w - 4)) WHITE])
      ++ [SetTextColor BLACK]
    else display ++ [SetTextColor WHITE] in
  let display := display ++ [SetCursor (to_int16 (x w + 4)) (to_int16 (y w + 2))] in
  display ++ [Print label].

#[global] Instance Widget_draw : Drawable WidgetKind :=
  λ w display,
    match kind w with
    | Label text centered => Label_draw w text centered display
    | Button label _ => Button_draw w label display
    end.

(** [Label::handleInput] is empty. *)
Definition Label_handleInput (w : Widget WidgetKind) (irCode : Z) : list Callback := [].

(** [Button::handleInput]. *)
Definition Button_handleInput (w : Widget WidgetKind) (callback : option Callback)
    (irCode : Z) : list Callback :=
  if focused w && (irCode =? IRCodes.OK) then call_if_set callback else [].

#[global] Instance Widget_handleInput : InputHandler WidgetKind Z :=
  λ w irCode,
    match kind w with
    | Label _ _ => Label_handleInput w irCode
    | Button _ callback => Button_handleInput w callback irCode
    end.

(** [Screen::handleInput] and [Screen::navigate] have the text of
    [Screen::handleInput] and [Screen::changeFocus] of the first
    refactor. *)
Definition Screen_handleInput (s : Screen WidgetKind) (irCode : Z)
    : option (list Callback * Screen WidgetKind) :=
  Refactor.Screen_handleInput s irCode.

Definition navigate (direction : Z) (s : Screen WidgetKind)
    : option (Screen WidgetKind) :=
  Refactor.changeFocus direction s.

(** [UIManager::setScreen(index)]: the members are those of the first
    refactor; the display is not touched. *)
Definition setScreen {K} (ui : Refactor.UIManager K) (index : Z)
    : Refactor.UIManager K :=
  if index <? vec_size (Refactor.screens ui) then
    {| Refactor.display := Refactor.display ui;
       Refactor.irManager := Refactor.irManager ui;
       Refactor.screens := Refactor.screens ui;
       Refactor.currentScreenIndex := index |}
  else ui.
End Refactor2.


(** ** ui_framework.h (the original framework) *)

Module Original.
Inductive InputEventType : Type := NONE | IR_BUTTON | TIMER.

Record InputEvent : Type := {
  type : InputEventType;
  value : Z
}.

Definition is_IR_BUTTON (t : InputEventType) : bool :=
  match t with
  | IR_BUTTON => true
  | _ => false
  end.

Inductive ScreenType : Type := MAIN_SCREEN | GRAPH_SCREEN.

(** The enumerator's value, as compared with [screens.size()]. *)
Definition ScreenType_value (t : ScreenType) : Z :=
  match t with
  | MAIN_SCREEN => 0
  | GRAPH_SCREEN => 1
  end.

(** The subclasses.  [FloatDisplay], [BatteryWidget] and [FunctionPlotter]
    add floating-point data only and have an empty [handleInput]; their
    data are left out. *)
Inductive WidgetKind : Type :=
  | Button (label : string) (callback : option Callback)
  | Label (text : string) (centered : bool)
  | FloatDisplay
  | BatteryWidget
  | FunctionPlotter.

Definition Button_new (x0 y0 w h : Z) (label : string) (callback : option Callback)
    : Widget WidgetKind :=
  Widget_new x0 y0 w h (Button label callback).

Definition Label_new (x0 y0 w h : Z) (text : string) (centered : bool)
    : Widget WidgetKind :=
  Widget_new x0 y0 w h (Label text centered).

(** [Button::handleInput(event)]. *)
Definition Button_handleInput (w : Widget WidgetKind) (callback : option Callback)
    (event : InputEvent) : list Callback :=
  if is_IR_BUTTON (type event) && (value event =? 0xFF02FD)
  then call_if_set callback
  else [].

#[global] Instance Widget_handleInput : InputHandler WidgetKind InputEvent :=
  λ w event,
    match kind w with
    | Button _ callback => Button_handleInput w callback event
    | Label _ _ | FloatDisplay | BatteryWidget | FunctionPlotter => []
    end.

(** [Screen::changeFocus(direction)], in [size_t]. *)
Definition changeFocus (direction : Z) (s : Screen WidgetKind)
    : option (Screen WidgetKind) :=
  if bool_decide (widgets s = []) then Some s
  else
    old ← vec_at (widgets s) (focusedWidgetIndex s);
    let ws := vec_store (widgets s) (focusedWidgetIndex s) (setFocus false old) in
    let index :=
      if direction >? 0
      then to_size_t (focusedWidgetIndex s + 1) mod vec_size ws
      else to_size_t (to_size_t (focusedWidgetIndex s + vec_size ws) - 1)
           mod vec_size ws in
    new ← vec_at ws index;
    Some {| widgets := vec_store ws index (setFocus true new);
            focusedWidgetIndex := index |}.

(** [Screen::handleInput(event)]: UP and DOWN move the focus; any other
    remote code goes to the widget at [focusedWidgetIndex] when that index
    is in range. *)
Definition Screen_handleInput (s : Screen WidgetKind) (event : InputEvent)
    : option (list Callback * Screen WidgetKind) :=
  if is_IR_BUTTON (type event) then
    if value event =? 0xFF629D then
      s' ← changeFocus (-1) s; Some ([], s')
    else if value event =? 0xFFA857 then
      s' ← changeFocus 1 s; Some ([], s')
    else if focusedWidgetIndex s <? vec_size (widgets s) then
      w ← vec_at (widgets s) (focusedWidgetIndex s);
      Some (handleInput w event, s)
    else Some ([], s)
  else Some ([], s).

(** The members of [UIManager] that [addScreen] and [setScreen] use; a
    null [Screen*] is [None]. *)
Record UIManager : Type := {
  display : Display;
  screens : list (option (Screen WidgetKind));
  currentScreenType : ScreenType
}.

(** [UIManager::addScreen(type, screen)]: grow with null pointers up to
    [type], then replace the slot. *)
Definition addScreen (ui : UIManager) (t : ScreenType) (screen : Screen WidgetKind)
    : UIManager :=
  let grown :=
    if vec_size (screens ui) <=? ScreenType_value t
    then screens ui
         ++ replicate (Z.to_nat (ScreenType_value t + 1 - vec_size (screens ui))) None
    else screens ui in
  {| display := display ui;
     screens := vec_store grown (ScreenType_value t) (Some screen);
     currentScreenType := currentScreenType ui |}.

(** [UIManager::setScreen(type)]. *)
Definition setScreen (ui : UIManager) (t : ScreenType) : UIManager :=
  if (ScreenType_value t <? vec_size (screens ui))
     && bool_decide (is_Some (mjoin (vec_at (screens ui) (ScreenType_value t))))
  then {| display := clearDisplay (display ui);
          screens := screens ui;
          currentScreenType := t |}
  else ui.
(** [Screen::getWidget(index)]: a null pointer past the end. *)
Definition getWidget (s : Screen WidgetKind) (index : Z)
    : option (Widget WidgetKind) :=
  if index <? vec_size (widgets s) then vec_at (widgets s) index else None.

(** [UIManager::getScreen(type)]: a null pointer past the end, else the
    pointer in the slot, which may be null. *)
Definition getScreen (ui : UIManager) (t : ScreenType)
    : option (Screen WidgetKind) :=
  if ScreenType_value t <? vec_size (screens ui)
  then mjoin (vec_at (screens ui) (ScreenType_value t))
  else None.

Definition UPDATE_INTERVAL : Z := 50.

(** [update()] is empty in each of the five widget classes. *)
Definition Widget_update (w : Widget WidgetKind) : Widget WidgetKind := w.

(** [Screen::update()] as [Screen] defines it. *)
Definition Screen_update (s : Screen WidgetKind) : Screen WidgetKind :=
  {| widgets := Widget_update <$> widgets s;
     focusedWidgetIndex := focusedWidgetIndex s |}.

(** [UIManager::update()], for a current screen that does not override
    [Screen::update].  [lastUpdateTime] is passed in and returned, as it
    is not among the members of [UIManager] above; [currentTime] is what
    [millis()] returns; [decoded] is [None] when [irReceiver.decode()] is
    false, else the raw code.  The virtual [Widget::draw] is a parameter:
    three of the five widget classes draw floating-point data. *)
Definition update `{!Drawable WidgetKind} (ui : UIManager)
    (lastUpdateTime currentTime : Z) (decoded : option Z)
    : option (list Callback * Z * UIManager) :=
  if to_uint32 (currentTime - lastUpdateTime) <? UPDATE_INTERVAL
  then Some ([], lastUpdateTime, ui)
  else
    match getScreen ui (currentScreenType ui) with
    | None => Some ([], currentTime, ui)
    | Some currentScreen =>
        let event :=
          match decoded with
          | Some v => {| type := IR_BUTTON; value := v |}
          | None => {| type := NONE; value := 0 |}
          end in
        '(called, handled) ← Screen_handleInput currentScreen event;
        let '(drawn_screen, drawn) :=
          Screen_draw (Screen_update handled) (clearDisplay (display ui)) in
        Some (called, currentTime,
              {| display := drawn ++ [DisplayFlush];
                 screens := vec_store (screens ui)
                              (ScreenType_value (currentScreenType ui))
                              (Some drawn_screen);
                 currentScreenType := currentScreenType ui |})
    end.
(** [Screen::handleInput(event)] again, with the virtual
    [Widget::handleInput] as a parameter instead of the five widget
    classes of this header, so that what reaches a widget can be observed
    for any widget. *)
Definition Screen_handleInput_via (H : InputHandler WidgetKind InputEvent)
    (s : Screen WidgetKind) (event : InputEvent)
    : option (list Callback * Screen WidgetKind) :=
  if is_IR_BUTTON (type event) then
    if value event =? 0xFF629D then
      s' ← changeFocus (-1) s; Some ([], s')
    else if value event =? 0xFFA857 then
      s' ← changeFocus 1 s; Some ([], s')
    else if focusedWidgetIndex s <? vec_size (widgets s) then
      w ← vec_at (widgets s) (focusedWidgetIndex s);
      Some (@handleInput _ _ H w event, s)
    else Some ([], s)
  else Some ([], s).
End Original.


(** ** Sample configurations *)

(** A run of [handleCommand] calls only, each given as (time, code). *)
Definition dispatches (calls : list (Z * Z)) : list TableOp :=
  map (λ p, OpHandleCommand p.1 p.2) calls.

(** What a rejected call of [handleCommand] produces. *)
Definition rejected (m : IRCommandManager) : Dispatch :=
  {| matched := false; invoked := []; after := m |}.

(** A manager with one command, registered under code 0. *)
Definition table_with_code_zero : IRCommandManager :=
  addCommand IRCommandManager_new 0 (Some 7%nat) "zero".

(** A manager where the repeat code itself was registered. *)
Definition table_with_repeat_code : IRCommandManager :=
  addCommand IRCommandManager_new REPEAT_CODE (Some 1%nat) "held".

(** The table of the specification's scenario: 0x01 increments, 0x02
    decrements. *)
Definition table_inc_dec : IRCommandManager :=
  addCommand (addCommand IRCommandManager_new 1 (Some 10%nat) "inc")
             2 (Some 20%nat) "dec".

(** [SCREEN_WIDTH] of the second refactor. *)
Definition SCREEN_WIDTH : Z := 128.

(** refactor2/Mainscreen.h: the constructor of [MainScreen].  The lambda
    that calls [startCharging()] is callback 1. *)
Definition MainScreen_new : Screen Refactor2.WidgetKind :=
  let s := Screen_new in
  let s := addWidget s (Refactor2.Label_new 0 0 SCREEN_WIDTH "NiMH Charger" true) in
  let s := addWidget s (Refactor2.Label_new 0 12 SCREEN_WIDTH "Status: Idle" false) in
  addWidget s (Refactor2.Button_new 14 54 100 "Start Charging" (Some 1%nat)).

(** refactor2/GraphScreen.h: the constructor of [GraphScreen].  The lambda
    that calls [cycleGraphType()] is callback 2. *)
Definition GraphScreen_new : Screen Refactor2.WidgetKind :=
  let s := Screen_new in
  let s := addWidget s (Refactor2.Label_new 0 0 SCREEN_WIDTH "Voltage Graph" true) in
  addWidget s (Refactor2.Button_new 14 54 100 "Next Graph" (Some 2%nat)).

(** A UI manager of the refactored framework that holds the two screens
    and has already drawn something. *)
Definition sample_ui : Refactor.UIManager Refactor2.WidgetKind :=
  {| Refactor.display := [SetCursor 0 0; Print "NiMH Charger"];
     Refactor.irManager := IRCommandManager_new;
     Refactor.screens := [MainScreen_new; GraphScreen_new];
     Refactor.currentScreenIndex := 0 |}.

(** ** Vocabulary of the statements *)

(** The focus cursor points into the vector, and the vector is no longer
    than a vector can be. *)
Definition cursor_in_range {K} (s : Screen K) : Prop :=
  0 ≤ focusedWidgetIndex s < vec_size (widgets s)
  ∧ vec_size (widgets s) ≤ vector_max_size.

(** Exactly one widget is focused, and it is the one at
    [focusedWidgetIndex]. *)
Definition single_focus {K} (s : Screen K) : Prop :=
  0 ≤ focusedWidgetIndex s < vec_size (widgets s)
  ∧ ∀ i w, widgets s !! i = Some w →
           (focused w = true ↔ i = Z.to_nat (focusedWidgetIndex s)).

(** The invariant of a screen: an empty screen has its cursor at 0, any
    other has a single focus. *)
Definition focus_inv {K} (s : Screen K) : Prop :=
  (widgets s = [] ∧ focusedWidgetIndex s = 0) ∨ single_focus s.

(** The screen [s] after the focus moved to [index]: the widget at the old
    cursor went through [setFocus(false)], then the widget at [index]
    through [setFocus(true)]; the others are untouched. *)
Definition refocused {K} (s : Screen K) (index : Z) : Screen K :=
  {| widgets :=
       imap (λ i w,
               if bool_decide (i = Z.to_nat index) then setFocus true w
               else if bool_decide (i = Z.to_nat (focusedWidgetIndex s))
                    then setFocus false w
                    else w)
            (widgets s);
     focusedWidgetIndex := index |}.

(** A slot of the screen vector that holds a screen. *)
Definition populated {K} (ui : Refactor.UIManager K) (index : Z) : Prop :=
  0 ≤ index < vec_size (Refactor.screens ui).

(** A slot of the original framework's screen vector that holds a
    non-null screen. *)
Definition original_populated (ui : Original.UIManager) (t : Original.ScreenType)
    : Prop :=
  ∃ screen,
    Original.screens ui !! Z.to_nat (Original.ScreenType_value t) = Some (Some screen).

(** An event that carries a decoded remote code. *)
Definition ir_event (v : Z) : Original.InputEvent :=
  {| Original.type := Original.IR_BUTTON; Original.value := v |}.

(** The "Start Charging" button of the original framework, fresh from its
    constructor; its lambda is callback 1. *)
Definition original_start_button : Widget Original.WidgetKind :=
  Original.Button_new 14 54 100 10 "Start Charging" (Some 1%nat).

(** A UI manager of the original framework: the main screen is installed,
    the graph screen is not. *)
Definition original_sample_ui : Original.UIManager :=
  Original.addScreen
    {| Original.display := [Print "boot"]; Original.screens := [];
       Original.currentScreenType := Original.MAIN_SCREEN |}
    Original.MAIN_SCREEN
    (addWidget Screen_new original_start_button).

(** [changeFocus(direction)] of the refactored framework, [k] times in a
    row. *)
Fixpoint changeFocus_times {K} (k : nat) (direction : Z) (s : Screen K)
    : option (Screen K) :=
  match k with
  | O => Some s
  | S k' => s' ← Refactor.changeFocus direction s; changeFocus_times k' direction s'
  end.

(** The widgets [ws] with the dirty flags cleared and the focus flag set
    on the widget at [cursor] only. *)
Definition with_focus_at {K} (cursor : Z) (ws : list (Widget K)) : list (Widget K) :=
  imap (λ i w, clearDirty (setFocus (bool_decide (i = Z.to_nat cursor)) w)) ws.

(** Two screens that differ in dirty flags at most. *)
Definition same_but_dirty {K} (s s' : Screen K) : Prop :=
  focusedWidgetIndex s = focusedWidgetIndex s'
  ∧ clearDirty <$> widgets s = clearDirty <$> widgets s'.

(** The manager [ui] with another command manager and display. *)
Definition with_manager_and_display {K} (ui : Refactor.UIManager K)
    (m : IRCommandManager) (d : Display) : Refactor.UIManager K :=
  {| Refactor.display := d; Refactor.irManager := m;
     Refactor.screens := Refactor.screens ui;
     Refactor.currentScreenIndex := Refactor.currentScreenIndex ui |}.

(** Calls on a [Screen] of the original framework, where focus moves
    through [handleInput] only ([changeFocus] is private).  [OpAdd] is
    [addWidget(new W(...))]. *)
Inductive OriginalOp : Type :=
  | OpAdd (x0 y0 w h : Z) (k : Original.WidgetKind)
  | OpEvent (event : Original.InputEvent).

Definition step_original (s : Screen Original.WidgetKind) (op : OriginalOp)
    : option (list Callback * Screen Original.WidgetKind) :=
  match op with
  | OpAdd x0 y0 w h k => Some ([], addWidget s (Widget_new x0 y0 w h k))
  | OpEvent event => Original.Screen_handleInput s event
  end.

Fixpoint run_original (s : Screen Original.WidgetKind) (ops : list OriginalOp)
    : option (list Callback * Screen Original.WidgetKind) :=
  match ops with
  | [] => Some ([], s)
  | op :: rest =>
      '(called, s') ← step_original s op;
      '(called', s'') ← run_original s' rest;
      Some (called ++ called', s'')
  end.

(** Calls on a [Screen] of the refactored framework where the caller
    passes any widget, as [addWidget] accepts it: it may have gone through
    the public [setFocus] before. *)
Inductive ViewOp (K : Type) : Type :=
  | OpAddElement (w : Widget K)
  | OpNavigateBy (direction : Z).

Arguments OpAddElement {K} _.
Arguments OpNavigateBy {K} _.

Definition step_view {K} (s : Screen K) (op : ViewOp K) : option (Screen K) :=
  match op with
  | OpAddElement w => Some (addWidget s w)
  | OpNavigateBy direction => Refactor.changeFocus direction s
  end.

Fixpoint run_view {K} (s : Screen K) (ops : list (ViewOp K)) : option (Screen K) :=
  match ops with
  | [] => Some s
  | op :: rest => s' ← step_view s op; run_view s' rest
  end.

(** Every widget that is added to a screen that already holds one is not
    focused when it is added; [none_yet] tells whether the screen is
    still empty before [ops]. *)
Fixpoint later_adds_unfocused {K} (none_yet : bool) (ops : list (ViewOp K)) : Prop :=
  match ops with
  | [] => True
  | OpAddElement w :: rest =>
      (none_yet = false → focused w = false) ∧ later_adds_unfocused false rest
  | OpNavigateBy _ :: rest => later_adds_unfocused none_yet rest
  end.

(** The widget [w] with the given focus and dirty flags, field by
    field. *)
Definition with_flags {K} (w : Widget K) (is_focused is_dirty : bool) : Widget K :=
  {| x := x w; y := y w; width := width w; height := height w;
     focused := is_focused; dirty := is_dirty; kind := kind w |}.

(** The screen [s] after the focus moved to [index], field by field: the
    widget at [index] is focused and dirty; the widget at the old cursor,
    if it is another one, is not focused, and dirty; the others are as
    they were. *)
Definition focus_moved {K} (s : Screen K) (index : Z) : Screen K :=
  {| widgets :=
       imap (λ i w,
               if bool_decide (i = Z.to_nat index) then with_flags w true true
               else if bool_decide (i = Z.to_nat (focusedWidgetIndex s))
                    then with_flags w false true
                    else w)
            (widgets s);
     focusedWidgetIndex := index |}.

(** [MainScreen] after its first [draw], and after [navigate(1)] on
    that. *)
Definition MainScreen_drawn : Screen Refactor2.WidgetKind :=
  (Screen_draw MainScreen_new []).1.

Definition MainScreen_moved : Screen Refactor2.WidgetKind :=
  default MainScreen_drawn (Refactor2.navigate 1 MainScreen_drawn).

(** A screen of the original framework with two buttons. *)
Definition original_two_buttons : Screen Original.WidgetKind :=
  addWidget (addWidget Screen_new original_start_button)
            (Original.Button_new 14 40 100 10 "Stop" (Some 2%nat)).

(** A widget class that answers every input by calling callback 9. *)
Definition eager_handler : InputHandler Original.WidgetKind Original.InputEvent :=
  λ _ _, [9%nat].

(** * Properties of the command manager *)

Section CommandManager.
Implicit Types (m : IRCommandManager) (ms : list CommandMapping) (c t : Z).

Lemma first_mapping_Some ms c mapping :
  first_mapping ms c = Some mapping → mapping ∈ ms ∧ code mapping = c.
Proof.
  induction ms as [|hd tl IH]; simpl; [done|].
  destruct (Z.eqb_spec (code hd) c) as [Heq|Hne].
  - intros [= <-]. split; [left | done].
  - intros H. destruct (IH H) as [Hin Hc]. split; [by right | done].
Qed.

Lemma first_mapping_None ms c :
  first_mapping ms c = None ↔ ∀ mapping, mapping ∈ ms → code mapping ≠ c.
Proof.
  induction ms as [|hd tl IH]; simpl.
  - split; [|done]. intros _ mapping Hin. by apply elem_of_nil in Hin.
  - destruct (Z.eqb_spec (code hd) c) as [Heq|Hne].
    + split; [done|]. intros H. exfalso. apply (H hd); [left | done].
    + rewrite IH. split.
      * intros H mapping [->|Hin]%elem_of_cons; [done | by apply H].
      * intros H mapping Hin. apply H. by right.
Qed.

Lemma registered_first_mapping c m :
  registered c m ↔ is_Some (first_mapping (commandMappings m) c).
Proof.
  split.
  - intros (mapping & Hin & Hc).
    destruct (first_mapping (commandMappings m) c) eqn:E; [by eexists|].
    exfalso. by eapply first_mapping_None.
  - intros [mapping H]. exists mapping. by apply first_mapping_Some.
Qed.

Lemma effective_code_direct m t c :
  c ≠ REPEAT_CODE → effective_code m t c = Some c.
Proof. intros Hc. unfold effective_code. by destruct (Z.eqb_spec c REPEAT_CODE). Qed.

Lemma effective_code_repeat m t :
  effective_code m t REPEAT_CODE =
    if decide (lastCode m ≠ 0 ∧ REPEAT_DELAY ≤ to_uint32 (t - lastCommandTime m))
    then Some (lastCode m) else None.
Proof.
  unfold effective_code. rewrite Z.eqb_refl.
  destruct (Z.eqb_spec (lastCode m) 0) as [H0|H0];
    destruct (Z.leb_spec REPEAT_DELAY (to_uint32 (t - lastCommandTime m)));
    simpl; case_decide; try done; lia.
Qed.

(** A call that answers [false] ran no handler and left the manager as it
    was. *)
Lemma handleCommand_false m t c :
  matched (handleCommand m t c) = false → handleCommand m t c = rejected m.
Proof.
  unfold handleCommand, rejected.
  destruct (effective_code m t c) as [c'|]; [|done].
  by destruct (first_mapping (commandMappings m) c').
Qed.

(** A call with any code but the repeat code that answers [true] records
    that code and the time of the call. *)
Lemma handleCommand_true_direct m t c :
  c ≠ REPEAT_CODE → matched (handleCommand m t c) = true →
  ∃ mapping, first_mapping (commandMappings m) c = Some mapping
    ∧ handleCommand m t c =
        {| matched := true; invoked := call_if_set (handler mapping);
           after := {| commandMappings := commandMappings m;
                       lastCode := c; lastCommandTime := t |} |}.
Proof.
  intros Hc. unfold handleCommand. rewrite effective_code_direct by done.
  destruct (first_mapping (commandMappings m) c) as [mapping|]; [|done].
  intros _. by exists mapping.
Qed.

(** A registered code other than the repeat code is matched. *)
Lemma handleCommand_registered_direct m t c :
  c ≠ REPEAT_CODE → registered c m → matched (handleCommand m t c) = true.
Proof.
  intros Hc [mapping Hmap]%registered_first_mapping. unfold handleCommand.
  by rewrite effective_code_direct, Hmap by done.
Qed.

Lemma handleCommand_repeat_no_previous m t :
  lastCode m = 0 → handleCommand m t REPEAT_CODE = rejected m.
Proof.
  intros H0. unfold handleCommand. rewrite effective_code_repeat.
  case_decide as Hd; [by destruct Hd | done].
Qed.

(** Calls that all answer [false] leave the manager as it was. *)
Lemma run_table_all_false m calls :
  Forall (λ o, answer o = false) (run_table m (dispatches calls)).1 →
  (run_table m (dispatches calls)).2 = m.
Proof.
  induction calls as [|[t c] tl IH]; simpl; [done|].
  destruct (run_table (after (handleCommand m t c)) (dispatches tl))
    as [log m'] eqn:E.
  simpl. intros Hall. apply Forall_cons in Hall as [Hhd Htl]. simpl in Hhd.
  rewrite (handleCommand_false _ _ _ Hhd) in E. simpl in E.
  rewrite E in IH. simpl in IH. by apply IH.
Qed.
End CommandManager.

(** The scenario of the specification: [dec] is dispatched, a repeat right
    after it is rejected, a repeat once the delay has passed runs [dec]
    again. *)
Example scenario_inc_dec :
  let first := handleCommand table_inc_dec 1000 2 in
  matched first = true ∧ invoked first = [20%nat] ∧ lastCode (after first) = 2
  ∧ handleCommand (after first) 1000 REPEAT_CODE = rejected (after first)
  ∧ handleCommand (after first) 1249 REPEAT_CODE = rejected (after first)
  ∧ matched (handleCommand (after first) 1250 REPEAT_CODE) = true
  ∧ invoked (handleCommand (after first) 1250 REPEAT_CODE) = [20%nat].
Proof. by vm_compute. Qed.

(** The loop finds a mapping that no earlier mapping of the same code
    precedes. *)
Lemma first_mapping_first (before rest : list CommandMapping)
    (mapping : CommandMapping) :
  (∀ earlier, earlier ∈ before → code earlier ≠ code mapping) →
  first_mapping (before ++ mapping :: rest) (code mapping) = Some mapping.
Proof.
  induction before as [|hd tl IH]; intros Hearlier; simpl.
  - by rewrite Z.eqb_refl.
  - destruct (Z.eqb_spec (code hd) (code mapping)) as [Heq|_].
    + exfalso. apply (Hearlier hd); [left | done].
    + apply IH. intros earlier Hin. apply Hearlier. by right.
Qed.

(** C2, as amended.  Let [mapping] be the first entry registered for its
    code [c], with [c] other than 0 and other than the repeat code; let
    [c] be dispatched at time [t0], and let every later call up to now
    have answered false.  The dispatch answers true, calls the handler of
    [mapping] once if it is a non-empty function and nothing otherwise,
    and records [c] and [t0].  Then the repeat code at time [t] is
    rejected, with no handler called and no change of state, when the
    32-bit difference [t - t0] is below [REPEAT_DELAY]; otherwise it
    answers true, calls that same handler of [mapping] again, and records
    [t].  A repeat code given while [lastCode] is 0 is rejected. *)
Theorem repeat_after_dispatch (m : IRCommandManager)
    (before rest : list CommandMapping) (mapping : CommandMapping)
    (t0 : Z) (between : list (Z * Z)) (t : Z) :
  commandMappings m = before ++ mapping :: rest →
  (∀ earlier, earlier ∈ before → code earlier ≠ code mapping) →
  code mapping ≠ 0 → code mapping ≠ REPEAT_CODE →
  let ran := match handler mapping with Some f => [f] | None => [] end in
  let first := handleCommand m t0 (code mapping) in
  let now := (run_table (after first) (dispatches between)).2 in
  Forall (λ o, answer o = false) (run_table (after first) (dispatches between)).1 →
  first = {| matched := true; invoked := ran;
             after := {| commandMappings := commandMappings m;
                         lastCode := code mapping; lastCommandTime := t0 |} |}
  ∧ (to_uint32 (t - t0) < REPEAT_DELAY →
     handleCommand now t REPEAT_CODE
     = {| matched := false; invoked := []; after := now |})
  ∧ (REPEAT_DELAY ≤ to_uint32 (t - t0) →
     handleCommand now t REPEAT_CODE =
       {| matched := true; invoked := ran;
          after := {| commandMappings := commandMappings m;
                      lastCode := code mapping; lastCommandTime := t |} |})
  ∧ (∀ m' t', lastCode m' = 0 →
       handleCommand m' t' REPEAT_CODE
       = {| matched := false; invoked := []; after := m' |}).
Proof.
  intros Hsplit Hearlier H0 Hrep ran first now Hfalse.
  assert (Hmap : first_mapping (commandMappings m) (code mapping) = Some mapping).
  { rewrite Hsplit. by apply first_mapping_first. }
  assert (Hfirst : first =
    {| matched := true; invoked := ran;
       after := {| commandMappings := commandMappings m;
                   lastCode := code mapping; lastCommandTime := t0 |} |}).
  { subst first ran. unfold handleCommand.
    rewrite effective_code_direct, Hmap by done.
    unfold call_if_set. by destruct (handler mapping). }
  assert (Hnow : now = after first) by (by apply run_table_all_false).
  split; [done|]. rewrite Hnow, Hfirst. simpl. split; [|split].
  - intros Hlt. unfold handleCommand. rewrite effective_code_repeat. simpl.
    case_decide as Hd; [lia | done].
  - intros Hge. unfold handleCommand. rewrite effective_code_repeat. simpl.
    case_decide as Hd; [|exfalso; apply Hd; by split].
    rewrite Hmap. subst ran. unfold call_if_set. by destruct (handler mapping).
  - intros m' t'. apply handleCommand_repeat_no_previous.
Qed.

(** On the table of the scenario: [dec] (callback 20) is the first entry
    for code 2; it is dispatched at 1000, an unknown code follows at
    1100; the repeat code is rejected at 1249 and calls [dec] again at
    1250. *)
Lemma repeat_after_dispatch_witness :
  handleCommand table_inc_dec 1000 2 =
    {| matched := true; invoked := [20%nat];
       after := {| commandMappings := commandMappings table_inc_dec;
                   lastCode := 2; lastCommandTime := 1000 |} |}
  ∧ handleCommand
      (run_table (after (handleCommand table_inc_dec 1000 2))
                 (dispatches [(1100, 5)])).2 1249 REPEAT_CODE
    = {| matched := false; invoked := [];
         after := (run_table (after (handleCommand table_inc_dec 1000 2))
                             (dispatches [(1100, 5)])).2 |}
  ∧ handleCommand
      (run_table (after (handleCommand table_inc_dec 1000 2))
                 (dispatches [(1100, 5)])).2 1250 REPEAT_CODE
    = {| matched := true; invoked := [20%nat];
         after := {| commandMappings := commandMappings table_inc_dec;
                     lastCode := 2; lastCommandTime := 1250 |} |}.
Proof.
  pose proof (λ t, repeat_after_dispatch table_inc_dec
                [{| code := 1; handler := Some 10%nat; description := "inc" |}] []
                {| code := 2; handler := Some 20%nat; description := "dec" |}
                1000 [(1100, 5)] t) as Hthm.
  simpl in Hthm.
  assert (Hearlier : ∀ earlier : CommandMapping,
            earlier ∈ [{| code := 1; handler := Some 10%nat; description := "inc" |}] →
            code earlier ≠ 2).
  { intros earlier Hin. apply list_elem_of_singleton in Hin as ->. discriminate. }
  assert (Hfalse : Forall (λ o, answer o = false)
            (run_table (after (handleCommand table_inc_dec 1000 2))
                       (dispatches [(1100, 5)])).1).
  { vm_compute. repeat constructor. }
  destruct (Hthm 1249 eq_refl Hearlier ltac:(discriminate) ltac:(discriminate) Hfalse)
    as (Hfirst & Hreject & _ & _).
  destruct (Hthm 1250 eq_refl Hearlier ltac:(discriminate) ltac:(discriminate) Hfalse)
    as (_ & _ & Haccept & _).
  split; [exact Hfirst|]. split.
  - apply Hreject. reflexivity.
  - apply Haccept. discriminate.
Defined.

(** C2 as stated fails for a command registered under code 0: it is
    dispatched at time 1000, and a repeat code 4000 ms later is rejected
    and runs nothing. *)
Lemma repeat_of_code_zero_rejected :
  registered 0 table_with_code_zero
  ∧ matched (handleCommand table_with_code_zero 1000 0) = true
  ∧ REPEAT_DELAY ≤ to_uint32 (5000 - 1000)
  ∧ handleCommand (after (handleCommand table_with_code_zero 1000 0)) 5000 REPEAT_CODE
    = rejected (after (handleCommand table_with_code_zero 1000 0)).
Proof.
  split; [|by vm_compute].
  exists {| code := 0; handler := Some 7%nat; description := "zero" |}.
  split; [|reflexivity]. vm_compute. left.
Qed.

(** C3, as amended.  [handleCommand] answers true exactly when the code is
    not the repeat code and is registered, or the code is the repeat code,
    [lastCode] is not 0, at least [REPEAT_DELAY] has passed since
    [lastCommandTime] (32-bit difference) and [lastCode] is registered.
    With no mappings it answers false for every code. *)
Theorem handleCommand_true_iff :
  (∀ (m : IRCommandManager) (t c : Z),
     matched (handleCommand m t c) = true ↔
       (c ≠ REPEAT_CODE ∧ registered c m)
       ∨ (c = REPEAT_CODE ∧ lastCode m ≠ 0
          ∧ REPEAT_DELAY ≤ to_uint32 (t - lastCommandTime m)
          ∧ registered (lastCode m) m))
  ∧ (∀ (m : IRCommandManager) (t c : Z),
       commandMappings m = [] → handleCommand m t c = rejected m).
Proof.
  split.
  - intros m t c. rewrite !registered_first_mapping. unfold handleCommand.
    destruct (decide (c = REPEAT_CODE)) as [->|Hc].
    + rewrite effective_code_repeat. case_decide as Hd.
      * destruct Hd as [H0 Hge].
        destruct (first_mapping (commandMappings m) (lastCode m)) as [mapping|] eqn:E;
          simpl.
        -- split; [|done]. intros _. right. by repeat split.
        -- split; [done|]. intros [[? _]|(_ & _ & _ & [? ?])]; done.
      * simpl. split; [done|]. intros [[? _]|(_ & ? & ? & _)]; [done|].
        exfalso. apply Hd. by split.
    + rewrite effective_code_direct by done.
      destruct (first_mapping (commandMappings m) c) as [mapping|] eqn:E; simpl.
      * split; [|done]. intros _. left. split; [done | by eexists].
      * split; [done|]. intros [[_ [? ?]]|[? _]]; done.
  - intros m t c Hnil. apply handleCommand_false. unfold handleCommand.
    rewrite Hnil. by destruct (effective_code m t c).
Qed.

(** C3 as stated fails when the repeat code itself is registered: the code
    matches a registered entry, yet the call answers false. *)
Lemma registered_repeat_code_not_matched :
  registered REPEAT_CODE table_with_repeat_code
  ∧ handleCommand table_with_repeat_code 1000 REPEAT_CODE
    = rejected table_with_repeat_code.
Proof.
  split; [|by vm_compute].
  exists {| code := REPEAT_CODE; handler := Some 1%nat; description := "held" |}.
  split; [|reflexivity]. vm_compute. left.
Qed.

(** While [lastCode] is 0, it stays 0 over every call that is not a
    successful dispatch of a non-zero code, and every repeat code among
    the calls is rejected without running a handler. *)
Lemma lastCode_zero_run (ops : list TableOp) (m : IRCommandManager) :
  lastCode m = 0 →
  Forall (λ o, answer o = true → given o ≠ REPEAT_CODE → given o = 0)
         (run_table m ops).1 →
  lastCode (run_table m ops).2 = 0
  ∧ Forall (λ o, given o = REPEAT_CODE → answer o = false ∧ calls o = [])
           (run_table m ops).1.
Proof.
  revert m. induction ops as [|op tl IH]; intros m H0; simpl.
  - by split.
  - destruct op as [c h d| |t c].
    + apply IH. done.
    + apply IH. done.
    + destruct (run_table (after (handleCommand m t c)) tl) as [log m'] eqn:E.
      simpl. intros Hall. apply Forall_cons in Hall as [Hhd Htl]. simpl in Hhd.
      assert (Hstep : lastCode (after (handleCommand m t c)) = 0
                      ∧ (c = REPEAT_CODE →
                         matched (handleCommand m t c) = false
                         ∧ invoked (handleCommand m t c) = [])).
      { destruct (decide (c = REPEAT_CODE)) as [->|Hc].
        - by rewrite handleCommand_repeat_no_previous.
        - split; [|done].
          destruct (matched (handleCommand m t c)) eqn:Em.
          + destruct (handleCommand_true_direct m t c Hc Em) as (mapping & _ & ->).
            simpl. by apply Hhd.
          + by rewrite (handleCommand_false _ _ _ Em). }
      destruct Hstep as [H0' Hrep].
      specialize (IH _ H0'). rewrite E in IH. simpl in IH.
      destruct (IH Htl) as [Hlast Hlog].
      split; [done|]. by apply Forall_cons.
Qed.

(** C10.  After a successful dispatch of a command registered under code
    0, [lastCode] is 0; over any later calls among which no code other
    than 0 is successfully dispatched, every repeat code is rejected and
    runs no handler, and so is a repeat code after them, at any time. *)
Theorem code_zero_disables_repeat (m : IRCommandManager) (t0 : Z)
    (ops : list TableOp) (t : Z) :
  registered 0 m →
  let first := handleCommand m t0 0 in
  let later := run_table (after first) ops in
  Forall (λ o, answer o = true → given o ≠ REPEAT_CODE → given o = 0) later.1 →
  matched first = true
  ∧ lastCode (after first) = 0
  ∧ Forall (λ o, given o = REPEAT_CODE → answer o = false ∧ calls o = []) later.1
  ∧ handleCommand later.2 t REPEAT_CODE = rejected later.2.
Proof.
  intros Hreg first later Hall.
  assert (Hm : matched first = true).
  { by apply handleCommand_registered_direct. }
  assert (H0 : lastCode (after first) = 0).
  { destruct (handleCommand_true_direct m t0 0 ltac:(discriminate) Hm)
      as (mapping & _ & Heq).
    subst first. by rewrite Heq. }
  destruct (lastCode_zero_run ops (after first) H0 Hall) as [Hlast Hlog].
  repeat split; try done.
  by apply handleCommand_repeat_no_previous.
Qed.

Lemma code_zero_disables_repeat_witness :
  matched (handleCommand table_with_code_zero 1000 0) = true
  ∧ lastCode (after (handleCommand table_with_code_zero 1000 0)) = 0
  ∧ Forall (λ o, given o = REPEAT_CODE → answer o = false ∧ calls o = [])
      (run_table (after (handleCommand table_with_code_zero 1000 0))
         [OpHandleCommand 2000 REPEAT_CODE; OpAddCommand 5 None "five";
          OpHandleCommand 3000 9; OpHandleCommand 4000 0;
          OpHandleCommand 9000 REPEAT_CODE]).1
  ∧ handleCommand
      (run_table (after (handleCommand table_with_code_zero 1000 0))
         [OpHandleCommand 2000 REPEAT_CODE; OpAddCommand 5 None "five";
          OpHandleCommand 3000 9; OpHandleCommand 4000 0;
          OpHandleCommand 9000 REPEAT_CODE]).2 123456 REPEAT_CODE
    = rejected
        (run_table (after (handleCommand table_with_code_zero 1000 0))
           [OpHandleCommand 2000 REPEAT_CODE; OpAddCommand 5 None "five";
            OpHandleCommand 3000 9; OpHandleCommand 4000 0;
            OpHandleCommand 9000 REPEAT_CODE]).2.
Proof.
  apply (code_zero_disables_repeat table_with_code_zero 1000
           [OpHandleCommand 2000 REPEAT_CODE; OpAddCommand 5 None "five";
            OpHandleCommand 3000 9; OpHandleCommand 4000 0;
            OpHandleCommand 9000 REPEAT_CODE] 123456).
  - exists {| code := 0; handler := Some 7%nat; description := "zero" |}.
    split; [|reflexivity]. vm_compute. left.
  - vm_compute. repeat constructor; intros; congruence.
Defined.

(** * Properties of the screen *)

Section ScreenFocus.
Context {K : Type}.
Implicit Types (s : Screen K) (w : Widget K) (ws : list (Widget K)).

Lemma vec_at_lookup {A} (v : list A) (i : Z) :
  0 ≤ i → vec_at v i = v !! Z.to_nat i.
Proof. intros Hi. unfold vec_at. by destruct (Z.ltb_spec i 0); [lia|]. Qed.

Lemma vec_at_in_range {A} (v : list A) (i : Z) :
  0 ≤ i < vec_size v → ∃ a, vec_at v i = Some a ∧ v !! Z.to_nat i = Some a.
Proof.
  intros [Hlo Hhi]. unfold vec_size in Hhi.
  destruct (lookup_lt_is_Some_2 v (Z.to_nat i)) as [a Ha]; [lia|].
  exists a. by rewrite vec_at_lookup.
Qed.

Lemma vec_size_store {A} (v : list A) (i : Z) (a : A) :
  vec_size (vec_store v i a) = vec_size v.
Proof. unfold vec_size, vec_store. by rewrite length_insert. Qed.

Lemma vec_size_nonempty {A} (v : list A) : v ≠ [] ↔ 0 < vec_size v.
Proof. unfold vec_size. destruct v; simpl; split; (done || lia). Qed.

(** The two [setFocus] calls of [changeFocus], for a target in range. *)
Lemma focus_swap s (index : Z) :
  0 ≤ focusedWidgetIndex s < vec_size (widgets s) →
  0 ≤ index < vec_size (widgets s) →
  (old ← vec_at (widgets s) (focusedWidgetIndex s);
   let ws := vec_store (widgets s) (focusedWidgetIndex s) (setFocus false old) in
   new ← vec_at ws index;
   Some {| widgets := vec_store ws index (setFocus true new);
           focusedWidgetIndex := index |})
  = Some (refocused s index).
Proof.
  intros Hcur Hidx.
  destruct (vec_at_in_range _ _ Hcur) as (old & -> & Hold). simpl.
  destruct (vec_at_in_range
              (vec_store (widgets s) (focusedWidgetIndex s) (setFocus false old))
              index) as (new & -> & Hnew).
  { by rewrite vec_size_store. }
  simpl. f_equal. unfold refocused. f_equal.
  apply list_eq. intros i. rewrite list_lookup_imap.
  unfold vec_store in *. unfold vec_size in *.
  destruct (decide (i = Z.to_nat index)) as [->|Hi].
  - rewrite list_lookup_insert_eq by (rewrite length_insert; lia).
    rewrite bool_decide_eq_true_2 by done.
    destruct (decide (Z.to_nat (focusedWidgetIndex s) = Z.to_nat index)) as [Heq|Hne].
    + rewrite Heq in Hnew, Hold.
      rewrite list_lookup_insert_eq in Hnew by lia.
      injection Hnew as <-. by rewrite Hold.
    + rewrite list_lookup_insert_ne in Hnew by done. by rewrite Hnew.
  - rewrite list_lookup_insert_ne by done.
    rewrite (bool_decide_eq_false_2 _ Hi).
    destruct (decide (i = Z.to_nat (focusedWidgetIndex s))) as [->|Hj].
    + rewrite list_lookup_insert_eq by lia.
      rewrite bool_decide_eq_true_2 by done. by rewrite Hold.
    + rewrite list_lookup_insert_ne by done.
      rewrite (bool_decide_eq_false_2 _ Hj). by destruct (widgets s !! i).
Qed.

(** The index arithmetic of the refactored [changeFocus] stays in range
    for every [direction]. *)
Lemma refactor_index_in_range (cur n direction : Z) :
  0 < n →
  0 ≤ to_size_t (to_size_t (cur + n) + to_size_t direction) mod n < n.
Proof. intros Hn. apply Z.mod_pos_bound. lia. Qed.

(** Within the bounds of a vector nothing wraps: one step down or up. *)
Lemma refactor_index_step (cur n direction : Z) :
  0 ≤ cur < n → n ≤ vector_max_size → direction = 1 ∨ direction = -1 →
  to_size_t (to_size_t (cur + n) + to_size_t direction) mod n
  = (cur + direction) mod n.
Proof.
  intros Hcur Hmax Hd. unfold to_size_t.
  assert (Hbig : vector_max_size = 536870911) by reflexivity.
  assert (H32 : 2 ^ 32 = 4294967296) by reflexivity.
  rewrite Hbig in Hmax. rewrite H32.
  rewrite (Z.mod_small (cur + n)) by lia.
  destruct Hd as [-> | ->].
  - rewrite (Z.mod_small 1) by lia.
    rewrite (Z.mod_small (cur + n + 1)) by lia.
    replace (cur + n + 1) with (cur + 1 + 1 * n) by lia.
    by rewrite Z.mod_add by lia.
  - replace (-1 mod 4294967296) with 4294967295 by reflexivity.
    replace (cur + n + 4294967295) with (cur + n - 1 + 1 * 4294967296) by lia.
    rewrite Z.mod_add by lia. rewrite (Z.mod_small (cur + n - 1)) by lia.
    replace (cur + n - 1) with (cur + -1 + 1 * n) by lia.
    by rewrite Z.mod_add by lia.
Qed.

Lemma original_index_step (cur n direction : Z) :
  0 ≤ cur < n → n ≤ vector_max_size → direction = 1 ∨ direction = -1 →
  (if direction >? 0
   then to_size_t (cur + 1) mod n
   else to_size_t (to_size_t (cur + n) - 1) mod n)
  = (cur + direction) mod n.
Proof.
  intros Hcur Hmax Hd. unfold to_size_t.
  assert (Hbig : vector_max_size = 536870911) by reflexivity.
  assert (H32 : 2 ^ 32 = 4294967296) by reflexivity.
  rewrite Hbig in Hmax. rewrite H32.
  destruct Hd as [-> | ->]; simpl.
  - by rewrite (Z.mod_small (cur + 1)) by lia.
  - rewrite (Z.mod_small (cur + n)) by lia.
    rewrite (Z.mod_small (cur + n - 1)) by lia.
    replace (cur + n - 1) with (cur + -1 + 1 * n) by lia.
    by rewrite Z.mod_add by lia.
Qed.
End ScreenFocus.

Section RefactorFocus.
Context {K : Type} `{!InputHandler K Z}.
Implicit Types (s : Screen K).

(** The refactored [changeFocus] on a screen whose cursor is in range, for
    every [direction]. *)
Lemma refactor_changeFocus_Some s (direction : Z) :
  0 ≤ focusedWidgetIndex s < vec_size (widgets s) →
  Refactor.changeFocus direction s =
    Some (refocused s
            (to_size_t (to_size_t (focusedWidgetIndex s + vec_size (widgets s))
                        + to_size_t direction)
             mod vec_size (widgets s))).
Proof.
  intros Hcur. unfold Refactor.changeFocus.
  rewrite bool_decide_eq_false_2 by (apply vec_size_nonempty; lia).
  pose proof (focus_swap s _ Hcur
                (refactor_index_in_range (focusedWidgetIndex s)
                   (vec_size (widgets s)) direction ltac:(lia))) as Hswap.
  destruct (vec_at_in_range _ _ Hcur) as (old & Hat & _).
  rewrite Hat in Hswap |- *. cbn [mbind option_bind] in Hswap |- *.
  rewrite vec_size_store. exact Hswap.
Qed.

Lemma refactor_changeFocus_empty s (direction : Z) :
  widgets s = [] → Refactor.changeFocus direction s = Some s.
Proof.
  intros Hnil. unfold Refactor.changeFocus. by rewrite bool_decide_eq_true_2.
Qed.

Lemma refocused_single_focus s (index : Z) :
  single_focus s → 0 ≤ index < vec_size (widgets s) →
  single_focus (refocused s index).
Proof.
  intros [Hcur Hone] Hidx. unfold single_focus, refocused, vec_size. simpl.
  rewrite length_imap. split; [done|].
  intros i w. rewrite list_lookup_imap.
  destruct (widgets s !! i) as [w0|] eqn:Hw0; simpl; [|done].
  intros [= <-]. case_bool_decide as Hi; [done|].
  case_bool_decide as Hj; [done|].
  rewrite (Hone i w0 Hw0). split; [done | by intros ->].
Qed.

(** Each call keeps the invariant and does not leave the vector. *)
Lemma addWidget_focus_inv s (x0 y0 w h : Z) (k : K) :
  focus_inv s → focus_inv (addWidget s (Widget_new x0 y0 w h k)).
Proof.
  intros [[Hnil H0] | [Hcur Hone]]; right; unfold single_focus, addWidget; simpl.
  - rewrite Hnil, H0. simpl. split; [by unfold vec_size; simpl|].
    intros [|i] w'; simpl; [|done]. by intros [= <-].
  - unfold vec_size in *. rewrite length_app. simpl.
    destruct (Z.eqb_spec (Z.of_nat (length (widgets s) + 1)) 1) as [H1|H1]; [lia|].
    rewrite length_app. simpl. split; [lia|].
    intros i w'. destruct (decide (i < length (widgets s))%nat) as [Hlt|Hge].
    + rewrite lookup_app_l by done. apply Hone.
    + rewrite lookup_app_r by lia.
      destruct (i - length (widgets s))%nat; simpl; [|done].
      intros [= <-]. simpl. split; [done | lia].
Qed.

Lemma changeFocus_focus_inv s (direction : Z) :
  focus_inv s →
  ∃ s', Refactor.changeFocus direction s = Some s' ∧ focus_inv s'.
Proof.
  intros [[Hnil H0] | [Hcur Hone]].
  - exists s. split; [by apply refactor_changeFocus_empty | by left].
  - eexists. split; [by apply refactor_changeFocus_Some|].
    right. apply refocused_single_focus; [done|].
    apply refactor_index_in_range. lia.
Qed.

Lemma handleInput_focus_inv s (irCode : Z) :
  focus_inv s →
  ∃ called, Refactor.Screen_handleInput s irCode = Some (called, s).
Proof.
  unfold Refactor.Screen_handleInput.
  intros [[Hnil H0] | [Hcur Hone]].
  - exists []. by rewrite bool_decide_eq_true_2.
  - rewrite bool_decide_eq_false_2 by (apply vec_size_nonempty; lia).
    destruct (vec_at_in_range _ _ Hcur) as (w & -> & _). by eexists.
Qed.

Lemma step_screen_focus_inv s (op : ScreenOp K) :
  focus_inv s →
  ∃ called s', step_screen s op = Some (called, s') ∧ focus_inv s'.
Proof.
  intros Hinv. destruct op as [x0 y0 w h k|direction|irCode]; simpl.
  - eexists _, _. split; [done|]. by apply addWidget_focus_inv.
  - destruct (changeFocus_focus_inv s direction Hinv) as (s' & -> & Hinv').
    by eexists _, _.
  - destruct (handleInput_focus_inv s irCode Hinv) as (called & ->).
    by eexists _, _.
Qed.

(** No run leaves the vector, and every run keeps the invariant. *)
Lemma run_screen_focus_inv (ops : list (ScreenOp K)) s :
  focus_inv s →
  ∃ called s', run_screen s ops = Some (called, s') ∧ focus_inv s'.
Proof.
  revert s. induction ops as [|op rest IH]; intros s Hinv; simpl.
  - by eexists _, _.
  - destruct (step_screen_focus_inv s op Hinv) as (called & s1 & -> & Hinv1).
    destruct (IH s1 Hinv1) as (called' & s2 & Hrun & Hinv2).
    simpl. rewrite Hrun. simpl. by eexists _, _.
Qed.

Lemma Screen_new_focus_inv : focus_inv (@Screen_new K).
Proof. by left. Qed.
End RefactorFocus.

(** The scenario of the specification on [MainScreen]: the first label is
    focused by default; [navigate(+1)] focuses the second label and marks
    both dirty; two more calls wrap around to the first label. *)
Example scenario_three_widgets :
  focused <$> widgets MainScreen_new = [true; false; false]
  ∧ (s ← Refactor2.navigate 1 MainScreen_new;
     Some (focused <$> widgets s, dirty <$> widgets s, focusedWidgetIndex s))
    = Some ([false; true; false], [true; true; true], 1)
  ∧ (s ← Refactor2.navigate 1 MainScreen_new;
     s ← Refactor2.navigate 1 s;
     Some (focused <$> widgets s, focusedWidgetIndex s))
    = Some ([false; false; true], 2)
  ∧ (s ← Refactor2.navigate 1 MainScreen_new;
     s ← Refactor2.navigate 1 s;
     s ← Refactor2.navigate 1 s;
     Some (focused <$> widgets s, focusedWidgetIndex s))
    = Some ([true; false; false], 0)
  ∧ (s ← Refactor2.navigate (-1) MainScreen_new;
     Some (focused <$> widgets s, focusedWidgetIndex s))
    = Some ([false; false; true], 2).
Proof. by vm_compute. Qed.

(** [addWidget] keeps the invariant when the widget it is given is not
    focused, or is the first one. *)
Lemma addWidget_given_focus_inv {K} (s : Screen K) (w : Widget K) :
  focus_inv s → (widgets s ≠ [] → focused w = false) →
  focus_inv (addWidget s w).
Proof.
  intros [[Hnil H0] | [Hcur Hone]] Hw; right; unfold single_focus, addWidget; simpl.
  - rewrite Hnil, H0. simpl. split; [by unfold vec_size; simpl|].
    intros [|i] w'; simpl; [|done]. by intros [= <-].
  - assert (Hne : widgets s ≠ []) by (apply vec_size_nonempty; lia).
    specialize (Hw Hne).
    unfold vec_size in *. rewrite length_app. simpl.
    destruct (Z.eqb_spec (Z.of_nat (length (widgets s) + 1)) 1) as [H1|H1]; [lia|].
    rewrite length_app. simpl. split; [lia|].
    intros i w'. destruct (decide (i < length (widgets s))%nat) as [Hlt|Hge].
    + rewrite lookup_app_l by done. apply Hone.
    + rewrite lookup_app_r by lia.
      destruct (i - length (widgets s))%nat; simpl; [|done].
      intros [= <-]. rewrite Hw. split; [done | lia].
Qed.

(** [changeFocus] keeps the invariant and does not empty or fill the
    vector. *)
Lemma changeFocus_focus_inv_same_emptiness {K} (s : Screen K) (direction : Z) :
  focus_inv s →
  ∃ s', Refactor.changeFocus direction s = Some s' ∧ focus_inv s'
        ∧ bool_decide (widgets s' = []) = bool_decide (widgets s = []).
Proof.
  intros [[Hnil H0] | [Hcur Hone]].
  - exists s. split; [by apply refactor_changeFocus_empty|]. split; [by left | done].
  - eexists. split; [by apply refactor_changeFocus_Some|]. split.
    + right. apply refocused_single_focus; [done|].
      apply refactor_index_in_range. lia.
    + rewrite !bool_decide_eq_false_2; [done | |].
      * apply vec_size_nonempty. lia.
      * apply vec_size_nonempty. unfold vec_size, refocused. simpl.
        rewrite length_imap. unfold vec_size in Hcur. lia.
Qed.

Lemma run_view_focus_inv {K} (ops : list (ViewOp K)) (s : Screen K) :
  focus_inv s →
  later_adds_unfocused (bool_decide (widgets s = [])) ops →
  ∃ s', run_view s ops = Some s' ∧ focus_inv s'.
Proof.
  revert s. induction ops as [|op rest IH]; intros s Hinv Hops; simpl.
  - by exists s.
  - destruct op as [w|direction]; simpl in *.
    + destruct Hops as [Hw Hrest].
      apply IH.
      * apply addWidget_given_focus_inv; [done|].
        intros Hne. apply Hw. by apply bool_decide_eq_false_2.
      * rewrite bool_decide_eq_false_2; [done|].
        unfold addWidget. simpl.
        destruct (vec_size (widgets s ++ [w]) =? 1); by destruct (widgets s).
    + destruct (changeFocus_focus_inv_same_emptiness s direction Hinv)
        as (s' & -> & Hinv' & Hsame).
      simpl. apply IH; [done|]. by rewrite Hsame.
Qed.

(** C1, as amended.  Take any run of [addWidget] and [changeFocus] calls
    (with any direction, so with +1 and -1) on a fresh screen of the
    refactored framework in which every widget added after the first is
    not focused when it is added, as a widget is when it comes from its
    constructor.  The run completes without leaving the vector, and if the
    screen is then non-empty, the widget at [focusedWidgetIndex] is
    focused and no other widget is. *)
Theorem single_focus_after_run (K : Type) (ops : list (ViewOp K)) :
  later_adds_unfocused true ops →
  ∃ s, run_view Screen_new ops = Some s
       ∧ (widgets s ≠ [] → single_focus s).
Proof.
  intros Hops.
  destruct (run_view_focus_inv ops Screen_new Screen_new_focus_inv Hops)
    as (s & Hrun & Hinv).
  exists s. split; [done|].
  by destruct Hinv as [[Hnil _] | Hone].
Qed.

(** A run where the first widget was focused by the caller beforehand
    and the later ones come from their constructors. *)
Lemma single_focus_after_run_witness :
  ∃ s, run_view Screen_new
         [OpAddElement (setFocus true (Refactor2.Label_new 0 0 128 "A" true));
          OpAddElement (Refactor2.Button_new 0 12 128 "B" (Some 5%nat));
          OpNavigateBy 1; OpNavigateBy 1;
          OpAddElement (Refactor2.Label_new 0 24 128 "C" false);
          OpNavigateBy (-1)] = Some s
       ∧ focused <$> widgets s = [false; false; true]
       ∧ focusedWidgetIndex s = 2
       ∧ single_focus s.
Proof.
  destruct (single_focus_after_run Refactor2.WidgetKind
              [OpAddElement (setFocus true (Refactor2.Label_new 0 0 128 "A" true));
               OpAddElement (Refactor2.Button_new 0 12 128 "B" (Some 5%nat));
               OpNavigateBy 1; OpNavigateBy 1;
               OpAddElement (Refactor2.Label_new 0 24 128 "C" false);
               OpNavigateBy (-1)])
    as (s & Hrun & Hone).
  { simpl. repeat split; done. }
  exists s. split; [exact Hrun|].
  vm_compute in Hrun. injection Hrun as <-.
  split; [reflexivity|]. split; [reflexivity|]. apply Hone. discriminate.
Defined.

(** C1 as stated fails when [addWidget] is given a widget that went
    through the public [setFocus(true)] before: it is stored as it is, so
    after two fresh widgets, a focused third one and [changeFocus(1)],
    the widgets at 1 and 2 are both focused, with the cursor at 1. *)
Lemma focused_widget_added_stays_focused :
  (λ s, (focused <$> widgets s, focusedWidgetIndex s))
  <$> run_view Screen_new
        [OpAddElement (Refactor2.Label_new 0 0 128 "A" true);
         OpAddElement (Refactor2.Label_new 0 12 128 "B" false);
         OpAddElement (setFocus true (Refactor2.Button_new 0 24 128 "C" None));
         OpNavigateBy 1]
  = Some ([false; true; true], 1).
Proof. by vm_compute. Qed.

(** C9.  In every state that a run of [addWidget], [changeFocus] and
    [handleInput] calls reaches from a fresh screen, a non-empty vector
    has [focusedWidgetIndex] below its size; the run itself never indexes
    the vector out of range (it yields a result). *)
Theorem cursor_in_bounds_after_run (K : Type) (H : InputHandler K Z)
    (ops : list (ScreenOp K)) :
  ∃ called s,
    run_screen Screen_new ops = Some (called, s)
    ∧ (widgets s ≠ [] → 0 ≤ focusedWidgetIndex s < vec_size (widgets s)).
Proof.
  destruct (run_screen_focus_inv ops Screen_new Screen_new_focus_inv)
    as (called & s & Hrun & Hinv).
  exists called, s. split; [done|].
  by destruct Hinv as [[Hnil _] | [Hcur _]].
Qed.

Lemma cursor_in_bounds_after_run_witness :
  ∃ s, (snd <$> run_screen Screen_new
          [OpNavigate 1; OpHandleInput IRCodes.UP;
           OpAddWidget 0 0 128 10 (Refactor2.Button "A" None);
           OpNavigate (-7); OpAddWidget 0 12 128 10 (Refactor2.Label "B" false);
           OpNavigate 2147483647; OpHandleInput IRCodes.OK]) = Some s
       ∧ 0 ≤ focusedWidgetIndex s < vec_size (widgets s).
Proof.
  destruct (cursor_in_bounds_after_run Refactor2.WidgetKind
              Refactor2.Widget_handleInput
              [OpNavigate 1; OpHandleInput IRCodes.UP;
               OpAddWidget 0 0 128 10 (Refactor2.Button "A" None);
               OpNavigate (-7); OpAddWidget 0 12 128 10 (Refactor2.Label "B" false);
               OpNavigate 2147483647; OpHandleInput IRCodes.OK])
    as (called & s & Hrun & Hcur).
  exists s. rewrite Hrun. split; [reflexivity|].
  vm_compute in Hrun. injection Hrun as _ <-.
  apply Hcur. discriminate.
Defined.

Lemma original_changeFocus_Some (s : Screen Original.WidgetKind) (direction : Z) :
  0 ≤ focusedWidgetIndex s < vec_size (widgets s) →
  Original.changeFocus direction s =
    Some (refocused s
            (if direction >? 0
             then to_size_t (focusedWidgetIndex s + 1) mod vec_size (widgets s)
             else to_size_t (to_size_t (focusedWidgetIndex s + vec_size (widgets s)) - 1)
                  mod vec_size (widgets s))).
Proof.
  intros Hcur. unfold Original.changeFocus.
  rewrite bool_decide_eq_false_2 by (apply vec_size_nonempty; lia).
  assert (Hidx : 0 ≤ (if direction >? 0
             then to_size_t (focusedWidgetIndex s + 1) mod vec_size (widgets s)
             else to_size_t (to_size_t (focusedWidgetIndex s + vec_size (widgets s)) - 1)
                  mod vec_size (widgets s)) < vec_size (widgets s)).
  { destruct (direction >? 0); apply Z.mod_pos_bound; lia. }
  pose proof (focus_swap s _ Hcur Hidx) as Hswap.
  destruct (vec_at_in_range _ _ Hcur) as (old & Hat & _).
  rewrite Hat in Hswap |- *. cbn [mbind option_bind] in Hswap |- *.
  rewrite vec_size_store. exact Hswap.
Qed.

(** The two [setFocus] calls of [changeFocus], field by field. *)
Lemma refocused_focus_moved {K} (s : Screen K) (index : Z) :
  refocused s index = focus_moved s index.
Proof. reflexivity. Qed.

(** C5.  On a non-empty screen whose cursor is in range (and whose vector
    is no longer than a vector can be), [changeFocus(d)] with [d] in
    {-1, +1} sets the cursor to [(cursor + d) mod n]; the widget at the
    old cursor is then not focused and dirty, the widget at the new
    cursor is focused and dirty (also when both are the same widget), and
    every other widget, and every other field, is as it was.  This holds
    for the refactored and for the original framework.  On an empty
    screen [changeFocus] returns the screen as it is. *)
Theorem changeFocus_wraps :
  (∀ (K : Type) (s : Screen K) (d : Z),
     d = 1 ∨ d = -1 → widgets s ≠ [] → cursor_in_range s →
     Refactor.changeFocus d s =
       Some (focus_moved s ((focusedWidgetIndex s + d) mod vec_size (widgets s))))
  ∧ (∀ (s : Screen Original.WidgetKind) (d : Z),
       d = 1 ∨ d = -1 → widgets s ≠ [] → cursor_in_range s →
       Original.changeFocus d s =
         Some (focus_moved s ((focusedWidgetIndex s + d) mod vec_size (widgets s))))
  ∧ (∀ (K : Type) (s : Screen K) (d : Z),
       widgets s = [] → Refactor.changeFocus d s = Some s)
  ∧ (∀ (s : Screen Original.WidgetKind) (d : Z),
       widgets s = [] → Original.changeFocus d s = Some s).
Proof.
  repeat split.
  - intros K s d Hd _ [Hcur Hmax].
    rewrite refactor_changeFocus_Some by done.
    by rewrite refactor_index_step, refocused_focus_moved.
  - intros s d Hd _ [Hcur Hmax].
    rewrite original_changeFocus_Some by done.
    by rewrite original_index_step, refocused_focus_moved.
  - intros K s d. apply refactor_changeFocus_empty.
  - intros s d Hnil. unfold Original.changeFocus.
    by rewrite bool_decide_eq_true_2.
Qed.

(** On the drawn [MainScreen] (first label focused, nothing dirty),
    [changeFocus(-1)] wraps to the button at 2; on the original screen
    with two buttons, [changeFocus(1)] moves from 0 to 1. *)
Lemma changeFocus_wraps_witness :
  (λ s, (focusedWidgetIndex s, focused <$> widgets s, dirty <$> widgets s))
  <$> Refactor.changeFocus (-1) MainScreen_drawn
  = Some (2, [false; false; true], [true; false; true])
  ∧ (λ s, (focusedWidgetIndex s, focused <$> widgets s))
    <$> Original.changeFocus 1 original_two_buttons
    = Some (1, [false; true]).
Proof.
  split.
  - rewrite (proj1 changeFocus_wraps Refactor2.WidgetKind MainScreen_drawn (-1));
      [reflexivity | by right | discriminate |].
    vm_compute. repeat split; discriminate.
  - rewrite (proj1 (proj2 changeFocus_wraps) original_two_buttons 1);
      [reflexivity | by left | discriminate |].
    vm_compute. repeat split; discriminate.
Defined.

(** * Properties of drawing *)

Section Drawing.
Context {K : Type} `{!Drawable K}.
Implicit Types (s : Screen K) (ws : list (Widget K)) (display : Display).

(** The loop of [Screen::draw]: the widgets that were dirty have gone
    through [clearDirty], the others are as they were, and the display
    received the [draw] of the dirty widgets, from the front of the
    vector to its back. *)
Lemma draw_widgets_spec ws display :
  draw_widgets ws display =
    ((λ w, if isDirty w then clearDirty w else w) <$> ws,
     foldl (λ d w, draw w d) display (List.filter isDirty ws)).
Proof.
  revert display. induction ws as [|w rest IH]; intros display; simpl; [done|].
  destruct (isDirty w); simpl; by rewrite IH.
Qed.

Lemma draw_widgets_all_clean ws display :
  Forall (λ w, isDirty w = false) ws → draw_widgets ws display = (ws, display).
Proof.
  revert display. induction ws as [|w rest IH]; intros display Hall; simpl; [done|].
  apply Forall_cons in Hall as [Hw Hrest]. rewrite Hw. by rewrite IH.
Qed.

Lemma drawn_widgets_clean ws :
  Forall (λ w, isDirty w = false)
         ((λ w, if isDirty w then clearDirty w else w) <$> ws).
Proof.
  induction ws as [|w rest IH]; simpl; constructor; [|done].
  by destruct (isDirty w) eqn:E.
Qed.
End Drawing.

(** [Screen::draw] on the freshly built [MainScreen], which has three
    dirty widgets, then again on the result. *)
Example scenario_draw_MainScreen :
  (Screen_draw MainScreen_new []).2
  = [SetTextColor WHITE; SetCursor 28 0; Print "NiMH Charger";
     SetTextColor WHITE; SetCursor 0 12; Print "Status: Idle";
     DrawRect 14 54 100 10 WHITE; SetTextColor WHITE; SetCursor 18 56;
     Print "Start Charging"]
  ∧ dirty <$> widgets (Screen_draw MainScreen_new []).1 = [false; false; false]
  ∧ (Screen_draw (Screen_draw MainScreen_new []).1 [ClearDisplay]).2 = [ClearDisplay].
Proof. by vm_compute. Qed.

(** C4.  [Screen::draw] calls [draw] on exactly the widgets whose dirty
    flag is set, in the order of the vector, and leaves each of them with
    the flag cleared and every other field as it was; the widgets whose
    flag is not set are left as they are.  Afterwards no widget has its
    dirty flag set, and a second [draw] right after draws nothing and
    changes nothing.  This holds for every implementation of the virtual
    [Widget::draw]. *)
Theorem Screen_draw_dirty_only (K : Type) (D : Drawable K) (s : Screen K)
    (display : Display) :
  Screen_draw s display =
    ({| widgets :=
          (λ w, if dirty w then with_flags w (focused w) false else w) <$> widgets s;
        focusedWidgetIndex := focusedWidgetIndex s |},
     foldl (λ d w, draw w d) display (List.filter dirty (widgets s)))
  ∧ Forall (λ w, dirty w = false) (widgets (Screen_draw s display).1)
  ∧ (∀ display', Screen_draw (Screen_draw s display).1 display'
                 = ((Screen_draw s display).1, display')).
Proof.
  assert (Heq : Screen_draw s display =
    ({| widgets :=
          (λ w, if dirty w then with_flags w (focused w) false else w) <$> widgets s;
        focusedWidgetIndex := focusedWidgetIndex s |},
     foldl (λ d w, draw w d) display (List.filter dirty (widgets s)))).
  { unfold Screen_draw. by rewrite draw_widgets_spec. }
  rewrite Heq. simpl. split; [done|]. split.
  - apply (drawn_widgets_clean (widgets s)).
  - intros display'. unfold Screen_draw. simpl.
    by rewrite draw_widgets_all_clean by apply (drawn_widgets_clean (widgets s)).
Qed.

(** On [MainScreen] after a first [draw] and [navigate(1)], the two labels
    are dirty and the button is not: [draw] sends the calls of the two
    labels, in that order, after what the display held, and leaves all
    three widgets clean; the button is not drawn. *)
Lemma Screen_draw_dirty_only_witness :
  dirty <$> widgets MainScreen_moved = [true; true; false]
  ∧ Screen_draw MainScreen_moved [ClearDisplay] =
      ({| widgets :=
            [with_flags (Refactor2.Label_new 0 0 SCREEN_WIDTH "NiMH Charger" true)
                        false false;
             with_flags (Refactor2.Label_new 0 12 SCREEN_WIDTH "Status: Idle" false)
                        true false;
             with_flags (Refactor2.Button_new 14 54 100 "Start Charging" (Some 1%nat))
                        false false];
          focusedWidgetIndex := 1 |},
       [ClearDisplay;
        SetTextColor WHITE; SetCursor 28 0; Print "NiMH Charger";
        SetTextColor WHITE; SetCursor 0 12; Print "Status: Idle"]).
Proof.
  split; [reflexivity|].
  rewrite (proj1 (Screen_draw_dirty_only Refactor2.WidgetKind Refactor2.Widget_draw
                    MainScreen_moved [ClearDisplay])).
  reflexivity.
Defined.

(** * Properties of input routing *)

(** C6, as amended.  In the original framework, whatever the widget
    classes do with an event, [Screen::handleInput] of an IR event with
    the UP or DOWN code calls nothing, so it hands the event to no
    widget, and moves the focus one step back or forward (wrapping): the
    cursor is set, the widget at the old cursor is left not focused and
    dirty, the one at the new cursor focused and dirty.  Any other IR
    code goes to the widget at the cursor, to it only, and the screen
    stays as it is.  [Screen::handleInput] of that header is this
    function at the header's own widget classes.  In the refactored
    framework [Screen::handleInput] hands every code, UP and DOWN
    included, to the widget at the cursor and never moves the focus. *)
Theorem handleInput_routing :
  (∀ (H : InputHandler Original.WidgetKind Original.InputEvent)
     (s : Screen Original.WidgetKind) (v : Z) (w : Widget Original.WidgetKind),
     cursor_in_range s →
     widgets s !! Z.to_nat (focusedWidgetIndex s) = Some w →
     Original.Screen_handleInput_via H s (ir_event IRCodes.UP)
     = Some ([], focus_moved s ((focusedWidgetIndex s + -1) mod vec_size (widgets s)))
     ∧ Original.Screen_handleInput_via H s (ir_event IRCodes.DOWN)
       = Some ([], focus_moved s ((focusedWidgetIndex s + 1) mod vec_size (widgets s)))
     ∧ (v ≠ IRCodes.UP → v ≠ IRCodes.DOWN →
        Original.Screen_handleInput_via H s (ir_event v)
        = Some (@handleInput _ _ H w (ir_event v), s)))
  ∧ (∀ (s : Screen Original.WidgetKind) (event : Original.InputEvent),
       Original.Screen_handleInput s event
       = Original.Screen_handleInput_via Original.Widget_handleInput s event)
  ∧ (∀ (K : Type) (H : InputHandler K Z) (s : Screen K) (irCode : Z) (w : Widget K),
       0 ≤ focusedWidgetIndex s →
       widgets s !! Z.to_nat (focusedWidgetIndex s) = Some w →
       Refactor.Screen_handleInput s irCode = Some (handleInput w irCode, s)).
Proof.
  split; [|split].
  - intros H s v w [Hcur Hmax] Hw. unfold Original.Screen_handleInput_via. simpl.
    split; [|split].
    + rewrite original_changeFocus_Some by done.
      by rewrite original_index_step by (done || by right).
    + rewrite original_changeFocus_Some by done.
      by rewrite original_index_step by (done || by left).
    + intros Hup Hdown.
      destruct (Z.eqb_spec v 16736925) as [Heq|_]; [done|].
      destruct (Z.eqb_spec v 16754775) as [Heq|_]; [done|].
      destruct (Z.ltb_spec (focusedWidgetIndex s) (vec_size (widgets s))); [|lia].
      rewrite vec_at_lookup by lia. by rewrite Hw.
  - done.
  - intros K H s irCode w Hlo Hw. unfold Refactor.Screen_handleInput.
    rewrite bool_decide_eq_false_2.
    + rewrite vec_at_lookup by done. by rewrite Hw.
    + intros Hnil. by rewrite Hnil in Hw.
Qed.

(** On the original screen with two buttons, with a widget class that
    calls callback 9 on every event: UP calls nothing and moves the focus
    from 0 to 1, OK reaches the focused widget.  With the header's own
    buttons, OK runs the callback of the focused button only.  On the
    refactored [GraphScreen], OK goes to the focused label, which calls
    nothing, and to the button once it is focused. *)
Lemma handleInput_routing_witness :
  (λ r, (r.1, focusedWidgetIndex r.2, focused <$> widgets r.2, dirty <$> widgets r.2))
  <$> Original.Screen_handleInput_via eager_handler original_two_buttons
        (ir_event IRCodes.UP)
  = Some ([], 1, [false; true], [true; true])
  ∧ Original.Screen_handleInput_via eager_handler original_two_buttons
      (ir_event IRCodes.OK)
    = Some ([9%nat], original_two_buttons)
  ∧ Original.Screen_handleInput original_two_buttons (ir_event IRCodes.OK)
    = Some ([1%nat], original_two_buttons)
  ∧ Refactor.Screen_handleInput GraphScreen_new IRCodes.OK = Some ([], GraphScreen_new)
  ∧ (s ← Refactor2.navigate 1 GraphScreen_new;
     r ← Refactor.Screen_handleInput s IRCodes.OK; Some r.1) = Some [2%nat].
Proof.
  destruct (proj1 handleInput_routing eager_handler original_two_buttons IRCodes.OK
              (setFocus true original_start_button)
              ltac:(by vm_compute) ltac:(reflexivity))
    as (Hup & _ & Hother).
  split; [by rewrite Hup|].
  split; [by rewrite Hother|].
  split; [by rewrite (proj1 (proj2 handleInput_routing))|].
  split; [|reflexivity].
  apply (proj2 (proj2 handleInput_routing) Refactor2.WidgetKind
           Refactor2.Widget_handleInput GraphScreen_new IRCodes.OK
           (setFocus true (Refactor2.Label_new 0 0 SCREEN_WIDTH "Voltage Graph" true))).
  - by vm_compute.
  - reflexivity.
Defined.

(** C6 as stated fails in the refactored framework: [handleInput] with the
    UP code leaves the cursor of [GraphScreen] at 0 and the screen as it
    is, where moving the focus up would put the cursor at 1. *)
Lemma refactor_handleInput_does_not_navigate :
  Refactor2.Screen_handleInput GraphScreen_new IRCodes.UP = Some ([], GraphScreen_new)
  ∧ focusedWidgetIndex GraphScreen_new = 0
  ∧ focusedWidgetIndex <$> Refactor2.navigate (-1) GraphScreen_new = Some 1.
Proof. by vm_compute. Qed.

(** C7, as amended.  A [Button] of the second refactor calls its callback
    (when that is a non-empty function) on the OK code if it is focused,
    and calls nothing if it is not focused or the code is not OK.  A
    [Button] of the original framework calls its callback on an IR event
    with the OK code whatever its focused flag is, and calls nothing on
    any other event. *)
Theorem Button_handleInput_trigger :
  (∀ (w : Widget Refactor2.WidgetKind) (label : string) (callback : option Callback)
     (irCode : Z),
     kind w = Refactor2.Button label callback →
     (focused w = true → irCode = IRCodes.OK →
      handleInput w irCode = call_if_set callback)
     ∧ (focused w = false ∨ irCode ≠ IRCodes.OK → handleInput w irCode = []))
  ∧ (∀ (w : Widget Original.WidgetKind) (label : string) (callback : option Callback)
       (event : Original.InputEvent),
       kind w = Original.Button label callback →
       (Original.type event = Original.IR_BUTTON →
        Original.value event = IRCodes.OK →
        handleInput w event = call_if_set callback)
       ∧ (Original.type event ≠ Original.IR_BUTTON
          ∨ Original.value event ≠ IRCodes.OK →
          handleInput w event = [])).
Proof.
  split.
  - intros w label callback irCode Hk.
    unfold handleInput, Refactor2.Widget_handleInput. rewrite Hk.
    unfold Refactor2.Button_handleInput. split.
    + intros -> ->. done.
    + intros [-> | Hne]; [done|].
      destruct (Z.eqb_spec irCode IRCodes.OK); [done|].
      by rewrite andb_false_r.
  - intros w label callback event Hk.
    unfold handleInput, Original.Widget_handleInput. rewrite Hk.
    unfold Original.Button_handleInput. split.
    + intros -> ->. done.
    + intros [Hty | Hne].
      * by destruct (Original.type event).
      * destruct (Z.eqb_spec (Original.value event) 16712445); [done|].
        by rewrite andb_false_r.
Qed.

Lemma Button_handleInput_trigger_witness :
  handleInput (setFocus true (Refactor2.Button_new 14 54 100 "Next Graph" (Some 2%nat)))
              IRCodes.OK = [2%nat]
  ∧ handleInput (Refactor2.Button_new 14 54 100 "Next Graph" (Some 2%nat))
                IRCodes.OK = [].
Proof.
  split.
  - apply (proj1 (proj1 Button_handleInput_trigger
             (setFocus true (Refactor2.Button_new 14 54 100 "Next Graph" (Some 2%nat)))
             "Next Graph" (Some 2%nat) IRCodes.OK eq_refl)); reflexivity.
  - apply (proj2 (proj1 Button_handleInput_trigger
             (Refactor2.Button_new 14 54 100 "Next Graph" (Some 2%nat))
             "Next Graph" (Some 2%nat) IRCodes.OK eq_refl)).
    by left.
Defined.

(** C7 as stated fails in the original framework: a button that is not
    focused calls its callback when it is handed the OK code. *)
Lemma original_unfocused_button_fires :
  focused original_start_button = false
  ∧ handleInput original_start_button (ir_event IRCodes.OK) = [1%nat].
Proof. by vm_compute. Qed.

(** * Properties of the UI manager *)

(** C8, as amended.  On a populated slot, [setScreen] of the first
    refactor makes the slot current and clears the display, and so does
    [setScreen] of the original framework (where populated also means
    non-null); [setScreen] of the second refactor makes the slot current
    and leaves the display as it is.  On a slot past the end of the
    vector (or, in the original, a null slot) each of them leaves the
    manager, display included, as it is. *)
Theorem setScreen_switches :
  (∀ (K : Type) (ui : Refactor.UIManager K) (index : Z),
     populated ui index →
     Refactor.setScreen ui index =
       {| Refactor.display := Refactor.display ui ++ [ClearDisplay];
          Refactor.irManager := Refactor.irManager ui;
          Refactor.screens := Refactor.screens ui;
          Refactor.currentScreenIndex := index |}
     ∧ Refactor2.setScreen ui index =
         {| Refactor.display := Refactor.display ui;
            Refactor.irManager := Refactor.irManager ui;
            Refactor.screens := Refactor.screens ui;
            Refactor.currentScreenIndex := index |})
  ∧ (∀ (K : Type) (ui : Refactor.UIManager K) (index : Z),
       0 ≤ index → ¬ populated ui index →
       Refactor.setScreen ui index = ui ∧ Refactor2.setScreen ui index = ui)
  ∧ (∀ (ui : Original.UIManager) (t : Original.ScreenType),
       original_populated ui t →
       Original.setScreen ui t =
         {| Original.display := Original.display ui ++ [ClearDisplay];
            Original.screens := Original.screens ui;
            Original.currentScreenType := t |})
  ∧ (∀ (ui : Original.UIManager) (t : Original.ScreenType),
       ¬ original_populated ui t → Original.setScreen ui t = ui).
Proof.
  split; [|split; [|split]].
  - intros K ui index [Hlo Hhi].
    unfold Refactor.setScreen, Refactor2.setScreen, clearDisplay.
    by destruct (Z.ltb_spec index (vec_size (Refactor.screens ui))); [|lia].
  - intros K ui index Hlo Hnot.
    unfold Refactor.setScreen, Refactor2.setScreen.
    destruct (Z.ltb_spec index (vec_size (Refactor.screens ui))); [|done].
    exfalso. apply Hnot. by split.
  - intros ui t [screen Hs]. unfold Original.setScreen, clearDisplay.
    assert (Hv : 0 ≤ Original.ScreenType_value t) by (by destruct t).
    apply lookup_lt_Some in Hs as Hlt.
    destruct (Z.ltb_spec (Original.ScreenType_value t)
                (vec_size (Original.screens ui))) as [_|Hge];
      [|unfold vec_size in Hge; lia].
    rewrite vec_at_lookup, Hs by done. by simpl.
  - intros ui t Hnot. unfold Original.setScreen.
    assert (Hv : 0 ≤ Original.ScreenType_value t) by (by destruct t).
    rewrite vec_at_lookup by done.
    destruct (Original.screens ui !! Z.to_nat (Original.ScreenType_value t))
      as [[screen|]|] eqn:E; simpl.
    + exfalso. apply Hnot. by exists screen.
    + by rewrite andb_false_r.
    + by rewrite andb_false_r.
Qed.

Lemma setScreen_switches_witness :
  Refactor.setScreen sample_ui 1 =
    {| Refactor.display := [SetCursor 0 0; Print "NiMH Charger"; ClearDisplay];
       Refactor.irManager := IRCommandManager_new;
       Refactor.screens := [MainScreen_new; GraphScreen_new];
       Refactor.currentScreenIndex := 1 |}
  ∧ Refactor.setScreen sample_ui 2 = sample_ui
  ∧ Original.setScreen original_sample_ui Original.GRAPH_SCREEN = original_sample_ui
  ∧ Original.display (Original.setScreen original_sample_ui Original.MAIN_SCREEN)
    = [Print "boot"; ClearDisplay].
Proof.
  split; [|split; [|split]].
  - apply (proj1 (proj1 setScreen_switches Refactor2.WidgetKind sample_ui 1
                    ltac:(by vm_compute))).
  - apply (proj1 (proj1 (proj2 setScreen_switches) Refactor2.WidgetKind sample_ui 2
                    ltac:(done) ltac:(by vm_compute; intros [_ ?]))).
  - apply (proj2 (proj2 (proj2 setScreen_switches)) original_sample_ui
             Original.GRAPH_SCREEN).
    intros [screen Hs]. vm_compute in Hs. discriminate.
  - rewrite (proj1 (proj2 (proj2 setScreen_switches)) original_sample_ui
               Original.MAIN_SCREEN); [reflexivity|].
    eexists. reflexivity.
Defined.

(** C8 as stated fails in the second refactor: [setScreen] on the
    populated slot 1 makes it current, and the display holds what it held
    before, with no [clearDisplay]. *)
Lemma refactor2_setScreen_keeps_display :
  populated sample_ui 1
  ∧ Refactor.currentScreenIndex (Refactor2.setScreen sample_ui 1) = 1
  ∧ Refactor.display (Refactor2.setScreen sample_ui 1)
    = [SetCursor 0 0; Print "NiMH Charger"].
Proof. by vm_compute. Qed.

(** * Further properties of the command manager *)

Lemma first_mapping_app (ms ms' : list CommandMapping) (c : Z) :
  first_mapping (ms ++ ms') c =
    match first_mapping ms c with
    | Some mapping => Some mapping
    | None => first_mapping ms' c
    end.
Proof.
  induction ms as [|hd tl IH]; simpl; [done|].
  by destruct (code hd =? c).
Qed.

(** What [handleCommand] answers depends on the mappings only through
    the first mapping of each code. *)
Lemma handleCommand_same_lookup (m m' : IRCommandManager) (t c : Z) :
  lastCode m = lastCode m' → lastCommandTime m = lastCommandTime m' →
  (∀ c', first_mapping (commandMappings m) c' = first_mapping (commandMappings m') c') →
  matched (handleCommand m t c) = matched (handleCommand m' t c)
  ∧ invoked (handleCommand m t c) = invoked (handleCommand m' t c)
  ∧ lastCode (after (handleCommand m t c)) = lastCode (after (handleCommand m' t c))
  ∧ lastCommandTime (after (handleCommand m t c))
    = lastCommandTime (after (handleCommand m' t c)).
Proof.
  intros Hc Ht Hms. unfold handleCommand, effective_code.
  rewrite <- Hc, <- Ht.
  destruct (c =? REPEAT_CODE);
    [destruct (negb (lastCode m =? 0)
               && (REPEAT_DELAY <=? to_uint32 (t - lastCommandTime m)))|];
    try (rewrite <- Hms;
         by destruct (first_mapping (commandMappings m) _)).
  done.
Qed.

(** First match wins: registering a code that is already registered
    changes no answer, no handler call and no recorded code or time of any
    later [handleCommand]; the new entry is never reached. *)
Theorem duplicate_registration_unreachable (m : IRCommandManager) (c : Z)
    (h : option Callback) (d : string) (t c' : Z) :
  registered c m →
  matched (handleCommand (addCommand m c h d) t c') = matched (handleCommand m t c')
  ∧ invoked (handleCommand (addCommand m c h d) t c') = invoked (handleCommand m t c')
  ∧ lastCode (after (handleCommand (addCommand m c h d) t c'))
    = lastCode (after (handleCommand m t c'))
  ∧ lastCommandTime (after (handleCommand (addCommand m c h d) t c'))
    = lastCommandTime (after (handleCommand m t c')).
Proof.
  intros [mapping Hmap]%registered_first_mapping.
  apply handleCommand_same_lookup; [done | done |].
  intros c''. simpl. rewrite first_mapping_app.
  destruct (first_mapping (commandMappings m) c'') eqn:E; [done|].
  simpl. destruct (Z.eqb_spec c c'') as [->|Hne]; [|done].
  by rewrite Hmap in E.
Qed.

Lemma duplicate_registration_unreachable_witness :
  invoked (handleCommand (addCommand table_inc_dec 2 (Some 99%nat) "again") 1000 2)
  = [20%nat].
Proof.
  rewrite (proj1 (proj2 (duplicate_registration_unreachable table_inc_dec 2
                           (Some 99%nat) "again" 1000 2
                           ltac:(exists {| code := 2; handler := Some 20%nat;
                                           description := "dec" |};
                                 split; [vm_compute; right; left | reflexivity])))).
  reflexivity.
Defined.

(** Registering a new code and dispatching it: the call answers true,
    runs the registered handler (when it is a non-empty function) and
    records the code and the time; the dispatch of every other code
    except the repeat code answers and runs what it did before. *)
Theorem addCommand_then_dispatch (m : IRCommandManager) (c : Z)
    (h : option Callback) (d : string) (t : Z) :
  c ≠ REPEAT_CODE → ¬ registered c m →
  handleCommand (addCommand m c h d) t c =
    {| matched := true; invoked := call_if_set h;
       after := {| commandMappings := commandMappings (addCommand m c h d);
                   lastCode := c; lastCommandTime := t |} |}
  ∧ (∀ c', c' ≠ c → c' ≠ REPEAT_CODE →
       matched (handleCommand (addCommand m c h d) t c') = matched (handleCommand m t c')
       ∧ invoked (handleCommand (addCommand m c h d) t c')
         = invoked (handleCommand m t c')).
Proof.
  intros Hc Hnot.
  assert (Hnone : first_mapping (commandMappings m) c = None).
  { destruct (first_mapping (commandMappings m) c) eqn:E; [|done].
    exfalso. apply Hnot, registered_first_mapping. by eexists. }
  split.
  - unfold handleCommand. rewrite effective_code_direct by done. simpl.
    rewrite first_mapping_app, Hnone. simpl. by rewrite Z.eqb_refl.
  - intros c' Hne Hrep. unfold handleCommand.
    rewrite !effective_code_direct by done. simpl.
    rewrite first_mapping_app. simpl.
    destruct (first_mapping (commandMappings m) c'); [done|].
    by destruct (Z.eqb_spec c c').
Qed.

Lemma addCommand_then_dispatch_witness :
  handleCommand (addCommand table_inc_dec 3 None "noop") 77 3 =
    {| matched := true; invoked := [];
       after := {| commandMappings :=
                     commandMappings (addCommand table_inc_dec 3 None "noop");
                   lastCode := 3; lastCommandTime := 77 |} |}.
Proof.
  apply (addCommand_then_dispatch table_inc_dec 3 None "noop" 77).
  - discriminate.
  - intros [mapping [Hin Hcode]]. vm_compute in Hin.
    apply elem_of_cons in Hin as [-> | Hin]; [discriminate|].
    apply elem_of_cons in Hin as [-> | Hin]; [discriminate|].
    by apply elem_of_nil in Hin.
Defined.

(** In every state that calls of [addCommand], [clearCommands] and
    [handleCommand] reach from a new manager, the recorded code is not the
    repeat code, and no call looks the repeat code up in the table: an
    entry registered under 0xFFFFFFFF is never run. *)
Theorem repeat_code_never_looked_up (ops : list TableOp) :
  lastCode (run_table IRCommandManager_new ops).2 ≠ REPEAT_CODE
  ∧ (∀ t c, effective_code (run_table IRCommandManager_new ops).2 t c
            ≠ Some REPEAT_CODE).
Proof.
  assert (Hinv : ∀ m, lastCode m ≠ REPEAT_CODE →
                      lastCode (run_table m ops).2 ≠ REPEAT_CODE).
  { induction ops as [|op tl IH]; intros m Hm; simpl; [done|].
    destruct op as [c h d| |t c].
    - by apply IH.
    - by apply IH.
    - destruct (run_table (after (handleCommand m t c)) tl) as [log m'] eqn:E.
      simpl. specialize (IH (after (handleCommand m t c))).
      rewrite E in IH. simpl in IH. apply IH.
      unfold handleCommand, effective_code.
      destruct (Z.eqb_spec c REPEAT_CODE) as [->|Hc].
      + destruct (negb (lastCode m =? 0)
                  && (REPEAT_DELAY <=? to_uint32 (t - lastCommandTime m)));
          [|done].
        by destruct (first_mapping (commandMappings m) (lastCode m)).
      + by destruct (first_mapping (commandMappings m) c). }
  assert (Hlast : lastCode (run_table IRCommandManager_new ops).2 ≠ REPEAT_CODE).
  { apply Hinv. discriminate. }
  split; [done|].
  intros t c. unfold effective_code.
  destruct (Z.eqb_spec c REPEAT_CODE) as [->|Hc].
  - destruct (negb _ && _); [|done]. by intros [= ?].
  - by intros [= ?].
Qed.

(** A held button fires at most once per [REPEAT_DELAY]: after a repeat
    code that was accepted at time [t1], a repeat code at a time [t2] less
    than [REPEAT_DELAY] later (32-bit difference) is rejected and changes
    nothing, and one at least [REPEAT_DELAY] later is accepted and runs
    the same handler again. *)
Theorem repeat_rate_limit (m : IRCommandManager) (t1 t2 : Z) :
  matched (handleCommand m t1 REPEAT_CODE) = true →
  let held := after (handleCommand m t1 REPEAT_CODE) in
  lastCode held = lastCode m
  ∧ (to_uint32 (t2 - t1) < REPEAT_DELAY →
     handleCommand held t2 REPEAT_CODE = rejected held)
  ∧ (REPEAT_DELAY ≤ to_uint32 (t2 - t1) →
     matched (handleCommand held t2 REPEAT_CODE) = true
     ∧ invoked (handleCommand held t2 REPEAT_CODE)
       = invoked (handleCommand m t1 REPEAT_CODE)).
Proof.
  intros Hm. cbv zeta.
  assert (Hfirst : ∃ mapping,
    first_mapping (commandMappings m) (lastCode m) = Some mapping
    ∧ lastCode m ≠ 0
    ∧ handleCommand m t1 REPEAT_CODE =
        {| matched := true; invoked := call_if_set (handler mapping);
           after := {| commandMappings := commandMappings m;
                       lastCode := lastCode m; lastCommandTime := t1 |} |}).
  { revert Hm. unfold handleCommand. rewrite effective_code_repeat.
    case_decide as Hd; [|done]. destruct Hd as [H0 Hge].
    destruct (first_mapping (commandMappings m) (lastCode m)) as [mapping|];
      [|done].
    intros _. by exists mapping. }
  destruct Hfirst as (mapping & E & H0 & ->). simpl.
  split; [done|]. split.
  - intros Hlt. unfold handleCommand. rewrite effective_code_repeat. simpl.
    case_decide as Hd; [lia | done].
  - intros Hge2. unfold handleCommand. rewrite effective_code_repeat. simpl.
    rewrite decide_True by done. by rewrite E.
Qed.

Lemma repeat_rate_limit_witness :
  handleCommand
    (after (handleCommand (after (handleCommand table_inc_dec 1000 2))
              1300 REPEAT_CODE)) 1500 REPEAT_CODE
  = rejected
      (after (handleCommand (after (handleCommand table_inc_dec 1000 2))
                1300 REPEAT_CODE)).
Proof.
  apply (repeat_rate_limit (after (handleCommand table_inc_dec 1000 2)) 1300 1500).
  - reflexivity.
  - reflexivity.
Defined.

(** [clearCommands] forgets the handlers but not the last code: with the
    table cleared every call, a repeat code included, is rejected and
    changes nothing; once the last code is registered again, a repeat code
    after the delay runs the newly registered handler. *)
Theorem clearCommands_keeps_repeat_state (m : IRCommandManager)
    (h : option Callback) (d : string) (t : Z) :
  lastCode m ≠ 0 → lastCode m ≠ REPEAT_CODE →
  REPEAT_DELAY ≤ to_uint32 (t - lastCommandTime m) →
  (∀ t' c', handleCommand (clearCommands m) t' c' = rejected (clearCommands m))
  ∧ handleCommand (addCommand (clearCommands m) (lastCode m) h d) t REPEAT_CODE =
      {| matched := true; invoked := call_if_set h;
         after := {| commandMappings :=
                       commandMappings (addCommand (clearCommands m) (lastCode m) h d);
                     lastCode := lastCode m; lastCommandTime := t |} |}.
Proof.
  intros H0 Hrep Hge. split.
  - intros t' c'. apply handleCommand_false. unfold handleCommand. simpl.
    by destruct (effective_code (clearCommands m) t' c').
  - unfold handleCommand. rewrite effective_code_repeat. simpl.
    rewrite decide_True by done. by rewrite Z.eqb_refl.
Qed.

Lemma clearCommands_keeps_repeat_state_witness :
  invoked
    (handleCommand
       (addCommand (clearCommands (after (handleCommand table_inc_dec 1000 2)))
                   2 (Some 30%nat) "dec, new")
       1250 REPEAT_CODE)
  = [30%nat].
Proof.
  pose proof (clearCommands_keeps_repeat_state
                (after (handleCommand table_inc_dec 1000 2))
                (Some 30%nat) "dec, new" 1250
                ltac:(discriminate) ltac:(discriminate) ltac:(discriminate))
    as [_ Heq].
  exact (f_equal invoked Heq).
Defined.

(** The repeat window is measured correctly across the roll-over of
    [millis()]: if the last command was recorded at clock value [t0] and
    [e] milliseconds (fewer than 2^32) have passed since, the repeat code
    at the wrapped clock value is accepted exactly when [e] is at least
    [REPEAT_DELAY] and the last code is registered. *)
Theorem repeat_window_across_rollover (m : IRCommandManager) (e : Z) :
  lastCode m ≠ 0 → 0 ≤ e < 2 ^ 32 →
  matched (handleCommand m (to_uint32 (lastCommandTime m + e)) REPEAT_CODE) = true
  ↔ REPEAT_DELAY ≤ e ∧ registered (lastCode m) m.
Proof.
  intros H0 He. rewrite registered_first_mapping.
  unfold handleCommand. rewrite effective_code_repeat.
  assert (Hwrap : to_uint32 (to_uint32 (lastCommandTime m + e) - lastCommandTime m) = e).
  { unfold to_uint32. rewrite Zminus_mod_idemp_l.
    replace (lastCommandTime m + e - lastCommandTime m) with e by lia.
    by apply Z.mod_small. }
  rewrite Hwrap. case_decide as Hd.
  - destruct Hd as [_ Hge].
    destruct (first_mapping (commandMappings m) (lastCode m)) eqn:E; simpl.
    + split; [|done]. intros _. split; [done | by eexists].
    + split; [done|]. by intros [_ [? ?]].
  - simpl. split; [done|]. intros [Hge _]. exfalso. apply Hd. by split.
Qed.

Lemma repeat_window_across_rollover_witness :
  matched
    (handleCommand (after (handleCommand table_inc_dec 4294967196 2))
                   150 REPEAT_CODE) = true.
Proof.
  apply (repeat_window_across_rollover
           (after (handleCommand table_inc_dec 4294967196 2)) 250).
  - discriminate.
  - split; [discriminate | reflexivity].
  - split; [discriminate|].
    exists {| code := 2; handler := Some 20%nat; description := "dec" |}.
    split; [vm_compute; right; left | reflexivity].
Defined.

(** * Further properties of the screen *)

Section ScreenBuilding.
Context {K : Type}.
Implicit Types (s : Screen K) (w : Widget K) (ws : list (Widget K)).

Lemma addWidget_nonempty s w :
  widgets s ≠ [] →
  addWidget s w =
    {| widgets := widgets s ++ [w]; focusedWidgetIndex := focusedWidgetIndex s |}.
Proof.
  intros Hne. unfold addWidget, vec_size. rewrite length_app.
  destruct (Z.eqb_spec (Z.of_nat (length (widgets s) + length [w])) 1)
    as [H1|H1]; [|done].
  destruct (widgets s); [done|]. simpl in H1. lia.
Qed.

Lemma addWidget_all_nonempty ws s :
  widgets s ≠ [] →
  foldl addWidget s ws =
    {| widgets := widgets s ++ ws; focusedWidgetIndex := focusedWidgetIndex s |}.
Proof.
  revert s. induction ws as [|w tl IH]; intros s Hne; simpl.
  - rewrite app_nil_r. by destruct s.
  - rewrite IH; rewrite addWidget_nonempty by done; simpl.
    + by rewrite <- app_assoc.
    + by destruct (widgets s).
Qed.
End ScreenBuilding.

(** A screen built by [addWidget] calls on a fresh screen holds the
    widgets in the order of the calls, with its cursor at 0; the first
    widget went through [setFocus(true)], every later one is stored as it
    was given. *)
Theorem addWidget_first_focused (K : Type) (w : Widget K) (ws : list (Widget K)) :
  foldl addWidget Screen_new (w :: ws) =
    {| widgets := setFocus true w :: ws; focusedWidgetIndex := 0 |}.
Proof. simpl. by rewrite addWidget_all_nonempty. Qed.

Section Navigation.
Context {K : Type}.
Implicit Types (s : Screen K) (w : Widget K).

Lemma refocused_lookup s (index : Z) (i : nat) :
  widgets (refocused s index) !! i =
    (λ w, if bool_decide (i = Z.to_nat index) then setFocus true w
          else if bool_decide (i = Z.to_nat (focusedWidgetIndex s))
               then setFocus false w
               else w) <$> widgets s !! i.
Proof. unfold refocused. simpl. by rewrite list_lookup_imap. Qed.

Lemma vec_size_refocused s (index : Z) :
  vec_size (widgets (refocused s index)) = vec_size (widgets s).
Proof. unfold vec_size, refocused. simpl. by rewrite length_imap. Qed.

(** Moving the focus is invisible once focus and dirty flags are
    overwritten. *)
Lemma with_focus_at_refocused s (index cursor : Z) :
  with_focus_at cursor (widgets (refocused s index))
  = with_focus_at cursor (widgets s).
Proof.
  apply list_eq. intros i. unfold with_focus_at.
  rewrite !list_lookup_imap, refocused_lookup.
  destruct (widgets s !! i) as [w|]; simpl; [|done].
  f_equal. by repeat case_bool_decide.
Qed.

Lemma single_focus_with_focus_at s :
  single_focus s →
  clearDirty <$> widgets s = with_focus_at (focusedWidgetIndex s) (widgets s).
Proof.
  intros [_ Hone]. apply list_eq. intros i. unfold with_focus_at.
  rewrite list_lookup_fmap, list_lookup_imap.
  destruct (widgets s !! i) as [w|] eqn:E; simpl; [|done].
  f_equal. unfold clearDirty, setFocus. simpl. f_equal.
  specialize (Hone i w E). case_bool_decide as Hi.
  - by apply Hone.
  - destruct (focused w); [|done]. exfalso. by apply Hi, Hone.
Qed.

(** Screens with a single focus, the same cursor and the same widgets up
    to focus and dirty flags differ in dirty flags at most. *)
Lemma same_but_dirty_intro s s' :
  single_focus s → single_focus s' →
  focusedWidgetIndex s = focusedWidgetIndex s' →
  (∀ cursor, with_focus_at cursor (widgets s') = with_focus_at cursor (widgets s)) →
  same_but_dirty s s'.
Proof.
  intros Hs Hs' Hcur Hsame. split; [done|].
  rewrite !single_focus_with_focus_at by done. by rewrite Hsame, Hcur.
Qed.

(** One step of the refactored [changeFocus] up or down. *)
Lemma changeFocus_step s (d : Z) :
  d = 1 ∨ d = -1 → single_focus s → cursor_in_range s →
  let s' := refocused s ((focusedWidgetIndex s + d) mod vec_size (widgets s)) in
  Refactor.changeFocus d s = Some s'
  ∧ single_focus s' ∧ cursor_in_range s'
  ∧ vec_size (widgets s') = vec_size (widgets s).
Proof.
  intros Hd Hone [Hcur Hmax] s'.
  assert (Hidx : 0 ≤ (focusedWidgetIndex s + d) mod vec_size (widgets s)
                 < vec_size (widgets s)) by (apply Z.mod_pos_bound; lia).
  split; [|split; [|split]].
  - rewrite refactor_changeFocus_Some by done.
    by rewrite refactor_index_step.
  - by apply refocused_single_focus.
  - subst s'. split; rewrite vec_size_refocused; simpl; done.
  - apply vec_size_refocused.
Qed.

Lemma changeFocus_times_spec (k : nat) s (d : Z) :
  d = 1 ∨ d = -1 → single_focus s → cursor_in_range s →
  ∃ s', changeFocus_times k d s = Some s'
        ∧ focusedWidgetIndex s'
          = (focusedWidgetIndex s + Z.of_nat k * d) mod vec_size (widgets s)
        ∧ single_focus s'
        ∧ ∀ cursor, with_focus_at cursor (widgets s')
                    = with_focus_at cursor (widgets s).
Proof.
  intros Hd. revert s. induction k as [|k IH]; intros s Hone Hrange.
  - exists s. simpl. split; [done|]. split; [|by split].
    rewrite Z.add_0_r. symmetry. apply Z.mod_small. apply Hrange.
  - destruct (changeFocus_step s d Hd Hone Hrange) as (Hstep & Hone1 & Hrange1 & Hsize).
    destruct (IH _ Hone1 Hrange1) as (s' & Hrun & Hcur & Hone' & Hsame).
    exists s'. simpl. rewrite Hstep. simpl. split; [done|].
    split; [|split; [done|]].
    + rewrite Hcur, Hsize. simpl.
      rewrite Zplus_mod_idemp_l. f_equal. lia.
    + intros cursor. by rewrite Hsame, with_focus_at_refocused.
Qed.
End Navigation.

(** [navigateDown] followed by [navigateUp], and [navigateUp] followed by
    [navigateDown], bring a screen with a single focus back to its cursor
    and its focus flags: the result differs from the start in dirty flags
    at most. *)
Theorem navigate_down_up_inverse (K : Type) (s : Screen K) :
  single_focus s → cursor_in_range s →
  (∃ s', Refactor.navigateDown s ≫= Refactor.navigateUp = Some s'
         ∧ same_but_dirty s s')
  ∧ (∃ s', Refactor.navigateUp s ≫= Refactor.navigateDown = Some s'
           ∧ same_but_dirty s s').
Proof.
  intros Hone Hrange.
  assert (Hgen : ∀ d, d = 1 ∨ d = -1 →
    ∃ s', Refactor.changeFocus d s ≫= Refactor.changeFocus (- d) = Some s'
          ∧ same_but_dirty s s').
  { intros d Hd.
    destruct (changeFocus_step s d Hd Hone Hrange) as (Hstep & Hone1 & Hrange1 & Hsize).
    assert (Hd' : - d = 1 ∨ - d = -1) by lia.
    destruct (changeFocus_step _ (- d) Hd' Hone1 Hrange1)
      as (Hstep2 & Hone2 & Hrange2 & Hsize2).
    eexists. rewrite Hstep. simpl. split; [exact Hstep2|].
    apply same_but_dirty_intro; try done.
    - rewrite Hsize. simpl. rewrite Zplus_mod_idemp_l.
      replace (focusedWidgetIndex s + d + - d) with (focusedWidgetIndex s) by lia.
      symmetry. apply Z.mod_small, Hrange.
    - intros cursor. by rewrite !with_focus_at_refocused. }
  split.
  - apply (Hgen 1). by left.
  - apply (Hgen (-1)). by right.
Qed.

Lemma navigate_down_up_inverse_witness :
  ∃ s', Refactor.navigateDown MainScreen_new ≫= Refactor.navigateUp = Some s'
        ∧ same_but_dirty MainScreen_new s'.
Proof.
  apply (navigate_down_up_inverse Refactor2.WidgetKind MainScreen_new).
  - split; [by vm_compute|].
    intros [|[|[|i]]] w; vm_compute; intros [= <-]; split; (done || lia).
  - by vm_compute.
Defined.

(** On a screen with [n] widgets and a single focus, [n] calls of
    [navigateDown] in a row, and [n] calls of [navigateUp], bring the
    cursor and the focus flags back to where they were. *)
Theorem navigate_full_cycle (K : Type) (s : Screen K) (d : Z) :
  d = 1 ∨ d = -1 → single_focus s → cursor_in_range s →
  ∃ s', changeFocus_times (length (widgets s)) d s = Some s'
        ∧ same_but_dirty s s'.
Proof.
  intros Hd Hone Hrange.
  destruct (changeFocus_times_spec (length (widgets s)) s d Hd Hone Hrange)
    as (s' & Hrun & Hcur & Hone' & Hsame).
  exists s'. split; [done|].
  apply same_but_dirty_intro; try done.
  rewrite Hcur. fold (vec_size (widgets s)).
  rewrite (Z.mul_comm (vec_size (widgets s)) d).
  rewrite Z.mod_add by (destruct Hrange; lia).
  symmetry. apply Z.mod_small, Hrange.
Qed.

Lemma navigate_full_cycle_witness :
  ∃ s', changeFocus_times 3 (-1) MainScreen_new = Some s'
        ∧ same_but_dirty MainScreen_new s'.
Proof.
  apply (navigate_full_cycle Refactor2.WidgetKind MainScreen_new (-1)).
  - by right.
  - split; [by vm_compute|].
    intros [|[|[|i]]] w; vm_compute; intros [= <-]; split; (done || lia).
  - by vm_compute.
Defined.

(** [changeFocus], for every direction, adds, removes and reorders
    nothing: each widget keeps its place, its rectangle and its subclass
    data.  The widget at the old cursor and the one at the new cursor
    become dirty, no dirty flag is cleared, and every other widget is
    left exactly as it was. *)
Theorem changeFocus_touches_flags_only (K : Type) (s : Screen K) (direction : Z) :
  0 ≤ focusedWidgetIndex s < vec_size (widgets s) →
  ∃ s', Refactor.changeFocus direction s = Some s'
    ∧ length (widgets s') = length (widgets s)
    ∧ ∀ i w, widgets s !! i = Some w →
        ∃ w', widgets s' !! i = Some w'
          ∧ (x w', y w', width w', height w', kind w')
            = (x w, y w, width w, height w, kind w)
          ∧ isDirty w'
            = isDirty w
              || bool_decide (i = Z.to_nat (focusedWidgetIndex s)
                              ∨ i = Z.to_nat (focusedWidgetIndex s'))
          ∧ (i ≠ Z.to_nat (focusedWidgetIndex s) →
             i ≠ Z.to_nat (focusedWidgetIndex s') → w' = w).
Proof.
  intros Hcur. eexists. split; [by apply refactor_changeFocus_Some|].
  split; [unfold refocused; simpl; by rewrite length_imap|].
  intros i w Hw. rewrite refocused_lookup, Hw. simpl.
  eexists. split; [done|]. unfold isDirty.
  case_bool_decide as Hnew; [|case_bool_decide as Hold]; simpl.
  - rewrite bool_decide_eq_true_2 by (by right).
    rewrite orb_true_r. by repeat split.
  - rewrite bool_decide_eq_true_2 by (by left).
    rewrite orb_true_r. by repeat split.
  - rewrite bool_decide_eq_false_2 by (by intros [?|?]).
    rewrite orb_false_r. by repeat split.
Qed.

Lemma changeFocus_touches_flags_only_witness :
  ∃ s', Refactor.changeFocus 1 (Screen_draw MainScreen_new []).1 = Some s'
        ∧ dirty <$> widgets s' = [true; true; false].
Proof.
  destruct (changeFocus_touches_flags_only Refactor2.WidgetKind
              (Screen_draw MainScreen_new []).1 1 ltac:(by vm_compute))
    as (s' & Hs' & _).
  exists s'. split; [done|].
  vm_compute in Hs'. by injection Hs' as <-.
Defined.

(** * Further properties of drawing *)

Lemma to_int16_add_multiple (z k : Z) : to_int16 (z + k * 2 ^ 16) = to_int16 z.
Proof.
  unfold to_int16. f_equal.
  replace (z + k * 2 ^ 16 + 2 ^ 15) with (z + 2 ^ 15 + k * 2 ^ 16) by lia.
  by rewrite Z.mod_add by lia.
Qed.

(** Narrowing to [int16_t] does not see a detour through [uint32_t]. *)
Lemma to_int16_to_uint32 (z : Z) : to_int16 (to_uint32 z) = to_int16 z.
Proof.
  unfold to_uint32. rewrite Z.mod_eq by lia.
  replace (z - 2 ^ 32 * (z / 2 ^ 32))
    with (z + (- (z / 2 ^ 32) * 2 ^ 16) * 2 ^ 16) by lia.
  apply to_int16_add_multiple.
Qed.

(** [Label::draw] of a centred label puts the cursor at
    [x + (width - 6 * length) / 2], rounded down and narrowed to
    [int16_t], also when the text is wider than the label: the unsigned
    wrap-around of the subtraction cancels in the narrowing. *)
Theorem Label_draw_centred (w : Widget Refactor2.WidgetKind) (text : string)
    (display : Display) :
  kind w = Refactor2.Label text true →
  - 2 ^ 15 ≤ width w < 2 ^ 15 →
  6 * Z.of_nat (String.length text) < 2 ^ 31 →
  draw w display =
    display ++ [SetTextColor WHITE;
                SetCursor (to_int16 (x w + (width w - 6 * Z.of_nat (String.length text)) / 2))
                          (y w);
                Print text].
Proof.
  intros Hk Hw Hlen. unfold draw, Refactor2.Widget_draw. rewrite Hk.
  unfold Refactor2.Label_draw. rewrite <- !app_assoc. simpl.
  do 4 f_equal.
  set (n := Z.of_nat (String.length text)) in *.
  assert (Hn : 0 ≤ n) by (subst n; lia).
  rewrite to_int16_to_uint32.
  assert (Hu : to_uint32 (width w - to_uint32 (n * 6)) / 2
               = (width w - 6 * n) / 2
                 + (if width w - 6 * n <? 0 then 2 ^ 15 else 0) * 2 ^ 16).
  { unfold to_uint32.
    change (2 ^ 32) with 4294967296. change (2 ^ 31) with 2147483648 in *.
    change (2 ^ 15) with 32768 in *.
    change (2 ^ 16) with 65536.
    rewrite (Z.mod_small (n * 6)) by lia.
    destruct (Z.ltb_spec (width w - 6 * n) 0).
    - replace ((width w - n * 6) mod 4294967296)
        with (width w - 6 * n + 32768 * 65536 * 2).
      + by rewrite Z.div_add by lia.
      + apply Z.mod_unique_pos with (q := -1); lia.
    - rewrite Z.mod_small by lia. rewrite Z.add_0_r. f_equal. lia. }
  rewrite Hu, Z.add_assoc. apply to_int16_add_multiple.
Qed.

Lemma Label_draw_centred_witness :
  draw (Refactor2.Label_new 100 0 20 "NiMH Charger" true) []
  = [SetTextColor WHITE; SetCursor 74 0; Print "NiMH Charger"].
Proof.
  apply (Label_draw_centred (Refactor2.Label_new 100 0 20 "NiMH Charger" true)
           "NiMH Charger" []).
  - reflexivity.
  - split; [discriminate | reflexivity].
  - reflexivity.
Defined.

(** * Properties of [UIManager::update] *)

Section RefactorUpdate.
Context {K : Type} `{!InputHandler K Z} `{!Drawable K}.
Implicit Types (ui : Refactor.UIManager K) (s : Screen K).

Lemma refactor_handleInput_forward s (irCode : Z) (w : Widget K) :
  0 ≤ focusedWidgetIndex s →
  widgets s !! Z.to_nat (focusedWidgetIndex s) = Some w →
  Refactor.Screen_handleInput s irCode = Some (handleInput w irCode, s).
Proof.
  intros Hlo Hw. unfold Refactor.Screen_handleInput.
  rewrite bool_decide_eq_false_2 by (intros Hnil; by rewrite Hnil in Hw).
  rewrite vec_at_lookup by done. by rewrite Hw.
Qed.

Lemma Screen_draw_clean s (display : Display) :
  Forall (λ w, isDirty w = false) (widgets s) →
  Screen_draw s display = (s, display).
Proof.
  intros Hclean. unfold Screen_draw.
  rewrite draw_widgets_all_clean by done. by destruct s.
Qed.

Lemma Screen_draw_leaves_clean s (display : Display) :
  Forall (λ w, isDirty w = false) (widgets (Screen_draw s display).1).
Proof.
  unfold Screen_draw. rewrite draw_widgets_spec. simpl.
  apply drawn_widgets_clean.
Qed.

(** The drawing half of [update] when there is nothing to draw. *)
Lemma update_draw_idle ui :
  (∀ s, Refactor.currentScreenIndex ui < vec_size (Refactor.screens ui) →
        Refactor.screens ui !! Z.to_nat (Refactor.currentScreenIndex ui) = Some s →
        Forall (λ w, isDirty w = false) (widgets s)) →
  (Refactor.currentScreenIndex ui < vec_size (Refactor.screens ui) →
   0 ≤ Refactor.currentScreenIndex ui) →
  Refactor.update_draw ui =
    Some (with_manager_and_display ui (Refactor.irManager ui)
            (Refactor.display ui ++ [ClearDisplay; DisplayFlush])).
Proof.
  intros Hclean Hlo. unfold Refactor.update_draw, with_manager_and_display.
  destruct (Z.ltb_spec (Refactor.currentScreenIndex ui)
              (vec_size (Refactor.screens ui))) as [Hlt|Hge].
  - destruct (vec_at_in_range (Refactor.screens ui) (Refactor.currentScreenIndex ui))
      as (s & -> & Hs); [split; [by apply Hlo | done]|].
    simpl. rewrite Screen_draw_clean by (by apply Hclean).
    unfold vec_store. rewrite list_insert_id by done.
    unfold clearDisplay. by rewrite <- app_assoc.
  - unfold clearDisplay. by rewrite <- app_assoc.
Qed.

(** What the drawing half of [update] leaves behind. *)
Lemma update_draw_result ui ui' :
  Refactor.update_draw ui = Some ui' →
  Refactor.currentScreenIndex ui' = Refactor.currentScreenIndex ui
  ∧ vec_size (Refactor.screens ui') = vec_size (Refactor.screens ui)
  ∧ (Refactor.currentScreenIndex ui < vec_size (Refactor.screens ui) →
     0 ≤ Refactor.currentScreenIndex ui
     ∧ ∃ s', Refactor.screens ui' !! Z.to_nat (Refactor.currentScreenIndex ui) = Some s'
             ∧ Forall (λ w, isDirty w = false) (widgets s')).
Proof.
  unfold Refactor.update_draw.
  destruct (Z.ltb_spec (Refactor.currentScreenIndex ui)
              (vec_size (Refactor.screens ui))) as [Hlt|Hge].
  - unfold vec_at.
    destruct (Z.ltb_spec (Refactor.currentScreenIndex ui) 0) as [|Hlo]; [done|].
    destruct (Refactor.screens ui !! Z.to_nat (Refactor.currentScreenIndex ui))
      as [s|] eqn:Hs; [|done].
    simpl. pose proof (Screen_draw_leaves_clean s (clearDisplay (Refactor.display ui)))
      as Hclean.
    destruct (Screen_draw s (clearDisplay (Refactor.display ui))) as [s' drawn].
    intros [= <-]. simpl. rewrite vec_size_store.
    split; [done|]. split; [done|]. intros _. split; [done|].
    exists s'. split; [|done].
    unfold vec_store. apply list_lookup_insert_eq. by eapply lookup_lt_Some.
  - intros [= <-]. simpl. split; [done|]. split; [done|]. lia.
Qed.
End RefactorUpdate.

(** A code that a global command matches never reaches the screen: the
    tick runs the command's handler and nothing else.  A code that no
    command matches goes to the focused widget of the current screen, and
    to it only.  Either way the command manager is left as
    [handleCommand] left it. *)
Theorem update_routes_code (K : Type) (H : InputHandler K Z) (D : Drawable K)
    (ui : Refactor.UIManager K) (t irCode : Z) (s : Screen K) (w : Widget K) :
  0 ≤ Refactor.currentScreenIndex ui →
  Refactor.screens ui !! Z.to_nat (Refactor.currentScreenIndex ui) = Some s →
  0 ≤ focusedWidgetIndex s →
  widgets s !! Z.to_nat (focusedWidgetIndex s) = Some w →
  ∃ ui',
    Refactor.update ui t (Some irCode) =
      Some (if matched (handleCommand (Refactor.irManager ui) t irCode)
            then invoked (handleCommand (Refactor.irManager ui) t irCode)
            else handleInput w irCode,
            ui')
    ∧ Refactor.irManager ui' = after (handleCommand (Refactor.irManager ui) t irCode).
Proof.
  intros Hlo Hs Hcur Hw.
  assert (Hlt : Refactor.currentScreenIndex ui < vec_size (Refactor.screens ui)).
  { apply lookup_lt_Some in Hs. unfold vec_size. lia. }
  assert (Hdraw : ∀ m, ∃ ui',
    Refactor.update_draw
      {| Refactor.display := Refactor.display ui; Refactor.irManager := m;
         Refactor.screens := Refactor.screens ui;
         Refactor.currentScreenIndex := Refactor.currentScreenIndex ui |} = Some ui'
    ∧ Refactor.irManager ui' = m).
  { intros m. unfold Refactor.update_draw. simpl.
    destruct (Z.ltb_spec (Refactor.currentScreenIndex ui)
                (vec_size (Refactor.screens ui))); [|lia].
    rewrite vec_at_lookup, Hs by done. simpl.
    destruct (Screen_draw s (clearDisplay (Refactor.display ui))).
    by eexists. }
  unfold Refactor.update, Refactor.update_input.
  destruct (matched (handleCommand (Refactor.irManager ui) t irCode)) eqn:Em.
  - simpl. destruct (Hdraw (after (handleCommand (Refactor.irManager ui) t irCode)))
      as (ui' & -> & Hm).
    by exists ui'.
  - rewrite (handleCommand_false _ _ _ Em). simpl.
    destruct (Z.ltb_spec (Refactor.currentScreenIndex ui)
                (vec_size (Refactor.screens ui))); [|lia].
    rewrite vec_at_lookup, Hs by done. simpl.
    rewrite (refactor_handleInput_forward s irCode w) by done. simpl.
    unfold vec_store. rewrite list_insert_id by done.
    destruct (Hdraw (Refactor.irManager ui)) as (ui' & -> & Hm).
    by exists ui'.
Qed.

Lemma update_routes_code_witness :
  fst <$> Refactor.update sample_ui 0 (Some IRCodes.OK) = Some [].
Proof.
  destruct (update_routes_code Refactor2.WidgetKind Refactor2.Widget_handleInput
              Refactor2.Widget_draw sample_ui 0 IRCodes.OK MainScreen_new
              (setFocus true (Refactor2.Label_new 0 0 SCREEN_WIDTH "NiMH Charger" true))
              ltac:(done) ltac:(reflexivity) ltac:(done) ltac:(reflexivity))
    as (ui' & -> & _).
  reflexivity.
Defined.

(** Every tick clears the display and draws only dirty widgets, and a
    tick leaves no widget of the current screen dirty.  So the tick after
    any completed tick, when no code was decoded, sends the sequence
    [clearDisplay(); display()] with no widget drawn in between, and
    changes nothing else. *)
Theorem idle_update_draws_nothing (K : Type) (H : InputHandler K Z) (D : Drawable K)
    (ui ui' : Refactor.UIManager K) (t t' : Z) (decoded : option Z)
    (called : list Callback) :
  Refactor.update ui t decoded = Some (called, ui') →
  Refactor.update ui' t' None =
    Some ([], with_manager_and_display ui' (Refactor.irManager ui')
                (Refactor.display ui' ++ [ClearDisplay; DisplayFlush])).
Proof.
  unfold Refactor.update at 1.
  destruct (Refactor.update_input ui t decoded) as [[called1 ui1]|]; [|done].
  simpl. destruct (Refactor.update_draw ui1) as [ui2|] eqn:Hdraw; [|done].
  simpl. intros [= -> ->].
  destruct (update_draw_result ui1 ui' Hdraw) as (Hidx & Hsize & Hclean).
  unfold Refactor.update. simpl.
  rewrite update_draw_idle; [done | |].
  - intros s Hlt Hs. rewrite Hidx, Hsize in Hlt. rewrite Hidx in Hs.
    destruct (Hclean Hlt) as (_ & s' & Hs' & Hc). congruence.
  - intros Hlt. rewrite Hidx, Hsize in Hlt. rewrite Hidx. by apply Hclean.
Qed.

Lemma idle_update_draws_nothing_witness :
  ∃ ui', Refactor.update sample_ui 0 None = Some ([], ui')
         ∧ Refactor.update ui' 50 None =
             Some ([], with_manager_and_display ui' (Refactor.irManager ui')
                         (Refactor.display ui' ++ [ClearDisplay; DisplayFlush])).
Proof.
  destruct (Refactor.update sample_ui 0 None) as [[called ui']|] eqn:E;
    [|discriminate E].
  assert (Hc : called = []) by (vm_compute in E; by injection E as <- _).
  subst called. exists ui'. split; [done|].
  exact (idle_update_draws_nothing Refactor2.WidgetKind
           Refactor2.Widget_handleInput Refactor2.Widget_draw
           sample_ui ui' 0 50 None [] E).
Defined.

(** * Properties of the original framework's accessors and tick *)

Section OriginalAccessors.
Implicit Types (ui : Original.UIManager) (t : Original.ScreenType).

Lemma ScreenType_value_nonneg t : 0 ≤ Original.ScreenType_value t.
Proof. by destruct t. Qed.


(** [getScreen] reads the slot, and reads null past the end. *)
Lemma getScreen_lookup ui t :
  Original.getScreen ui t
  = mjoin (Original.screens ui !! Z.to_nat (Original.ScreenType_value t)).
Proof.
  unfold Original.getScreen. pose proof (ScreenType_value_nonneg t).
  rewrite vec_at_lookup by done.
  destruct (Z.ltb_spec (Original.ScreenType_value t)
              (vec_size (Original.screens ui))) as [|Hge]; [done|].
  rewrite (proj2 (lookup_ge_None _ _)); [done|]. unfold vec_size in Hge. lia.
Qed.

End OriginalAccessors.


(** [addWidget] then [getWidget]: the new widget is at the old size
    (focused if it is the first), the widgets before it read as they
    did, and any index past it reads null. *)
Theorem addWidget_then_getWidget (s : Screen Original.WidgetKind)
    (w : Widget Original.WidgetKind) :
  Original.getWidget (addWidget s w) (vec_size (widgets s))
  = Some (if bool_decide (widgets s = []) then setFocus true w else w)
  ∧ (∀ i, 0 ≤ i < vec_size (widgets s) →
       Original.getWidget (addWidget s w) i = Original.getWidget s i)
  ∧ (∀ i, vec_size (widgets s) < i → Original.getWidget (addWidget s w) i = None).
Proof.
  assert (Hws : widgets (addWidget s w)
                = widgets s ++ [if bool_decide (widgets s = [])
                                then setFocus true w else w]).
  { unfold addWidget, vec_size. simpl. rewrite length_app. simpl.
    destruct (widgets s) as [|w0 tl]; [done|].
    rewrite bool_decide_eq_false_2 by done.
    destruct (Z.eqb_spec (Z.of_nat (length (w0 :: tl) + 1)) 1) as [H1|]; [|done].
    simpl in H1. lia. }
  unfold Original.getWidget. rewrite Hws. unfold vec_size.
  rewrite length_app. simpl. split; [|split].
  - destruct (Z.ltb_spec (Z.of_nat (length (widgets s)))
                (Z.of_nat (length (widgets s) + 1))); [|lia].
    rewrite vec_at_lookup by lia. rewrite Nat2Z.id.
    by rewrite list_lookup_middle.
  - intros i [Hlo Hhi].
    destruct (Z.ltb_spec i (Z.of_nat (length (widgets s) + 1))); [|lia].
    destruct (Z.ltb_spec i (Z.of_nat (length (widgets s)))); [|lia].
    rewrite !vec_at_lookup by done. apply lookup_app_l. lia.
  - intros i Hi.
    by destruct (Z.ltb_spec i (Z.of_nat (length (widgets s) + 1))); [lia|].
Qed.

(** A tick of the original framework with the UP code decoded, at least
    [UPDATE_INTERVAL] after the last one: no callback runs, the time is
    recorded, the focus of the current screen moves one step back
    (wrapping), and the screen is drawn on the cleared display.  A tick
    less than [UPDATE_INTERVAL] after that one (32-bit difference) does
    nothing, whatever was decoded. *)
Theorem original_update_navigates (D : Drawable Original.WidgetKind)
    (ui : Original.UIManager) (lastUpdateTime t : Z)
    (s : Screen Original.WidgetKind) :
  Original.UPDATE_INTERVAL ≤ to_uint32 (t - lastUpdateTime) →
  Original.getScreen ui (Original.currentScreenType ui) = Some s →
  cursor_in_range s →
  let moved := refocused s ((focusedWidgetIndex s + -1) mod vec_size (widgets s)) in
  let frame := Screen_draw moved (clearDisplay (Original.display ui)) in
  ∃ ui',
    Original.update ui lastUpdateTime t (Some IRCodes.UP) = Some ([], t, ui')
    ∧ Original.getScreen ui' (Original.currentScreenType ui') = Some frame.1
    ∧ Original.display ui' = frame.2 ++ [DisplayFlush]
    ∧ (∀ t2 decoded, to_uint32 (t2 - t) < Original.UPDATE_INTERVAL →
         Original.update ui' t t2 decoded = Some ([], t, ui')).
Proof.
  intros Hdue Hs [Hcur Hmax] moved frame.
  assert (Hmove : Original.Screen_handleInput s (ir_event IRCodes.UP)
                  = Some ([], moved)).
  { unfold Original.Screen_handleInput. simpl.
    rewrite original_changeFocus_Some by done.
    by rewrite original_index_step by (done || by right). }
  assert (Hupd : Original.Screen_update moved = moved).
  { unfold Original.Screen_update.
    change (Original.Widget_update <$> widgets moved) with (id <$> widgets moved).
    rewrite list_fmap_id. by destruct moved. }
  assert (Hslot : Original.screens ui
                  !! Z.to_nat (Original.ScreenType_value (Original.currentScreenType ui))
                  = Some (Some s)).
  { rewrite getScreen_lookup in Hs.
    destruct (Original.screens ui !! _) as [[s0|]|]; simpl in Hs; congruence. }
  unfold Original.update.
  destruct (Z.ltb_spec (to_uint32 (t - lastUpdateTime)) Original.UPDATE_INTERVAL);
    [lia|].
  rewrite Hs. fold (ir_event IRCodes.UP). rewrite Hmove. simpl.
  rewrite Hupd. fold frame. destruct frame as [drawn_screen drawn] eqn:Hframe.
  eexists. split; [done|]. simpl. split; [|split; [done|]].
  - rewrite getScreen_lookup. simpl. unfold vec_store.
    rewrite list_lookup_insert_eq by (by eapply lookup_lt_Some). done.
  - intros t2 decoded Hsoon. unfold Original.update.
    by destruct (Z.ltb_spec (to_uint32 (t2 - t)) Original.UPDATE_INTERVAL); [|lia].
Qed.

Lemma original_update_navigates_witness :
  ∃ ui',
    Original.update (Drawable0 := λ _ display, display ++ [Print "widget"])
      original_sample_ui 0 50 (Some IRCodes.UP) = Some ([], 50, ui')
    ∧ Original.display ui' = [Print "boot"; ClearDisplay; Print "widget"; DisplayFlush].
Proof.
  destruct (original_update_navigates (λ _ display, display ++ [Print "widget"])
              original_sample_ui 0 50
              (addWidget Screen_new original_start_button)
              ltac:(by vm_compute) ltac:(reflexivity) ltac:(by vm_compute))
    as (ui' & Hrun & _ & Hdisplay & _).
  exists ui'. split; [exact Hrun|]. rewrite Hdisplay. reflexivity.
Defined.

Lemma original_changeFocus_focus_inv (s : Screen Original.WidgetKind) (direction : Z) :
  focus_inv s →
  ∃ s', Original.changeFocus direction s = Some s' ∧ focus_inv s'.
Proof.
  intros [[Hnil H0] | [Hcur Hone]].
  - exists s. split; [|by left].
    unfold Original.changeFocus. by rewrite bool_decide_eq_true_2.
  - eexists. split; [by apply original_changeFocus_Some|].
    right. apply refocused_single_focus; [done|].
    destruct (direction >? 0); apply Z.mod_pos_bound; lia.
Qed.

Lemma original_handleInput_focus_inv (s : Screen Original.WidgetKind)
    (event : Original.InputEvent) :
  focus_inv s →
  ∃ called s', Original.Screen_handleInput s event = Some (called, s')
               ∧ focus_inv s'.
Proof.
  intros Hinv. unfold Original.Screen_handleInput.
  destruct (Original.is_IR_BUTTON (Original.type event)); [|by eexists _, _].
  destruct (Original.value event =? 16736925).
  { destruct (original_changeFocus_focus_inv s (-1) Hinv) as (s' & -> & Hinv').
    by eexists _, _. }
  destruct (Original.value event =? 16754775).
  { destruct (original_changeFocus_focus_inv s 1 Hinv) as (s' & -> & Hinv').
    by eexists _, _. }
  destruct (Z.ltb_spec (focusedWidgetIndex s) (vec_size (widgets s))) as [Hlt|];
    [|by eexists _, _].
  destruct Hinv as [[Hnil H0] | [Hcur Hone]].
  - rewrite Hnil, H0 in Hlt. by unfold vec_size in Hlt.
  - destruct (vec_at_in_range _ _ Hcur) as (w & -> & _). simpl.
    eexists _, _. split; [done | by right].
Qed.

(** In the original framework, where the focus moves through
    [handleInput] only, every run of [addWidget(new ...)] and
    [handleInput] calls on a fresh screen completes without leaving the
    vector, and a non-empty result has exactly one focused widget, the
    one at [focusedWidgetIndex]. *)
Theorem original_single_focus_after_run (ops : list OriginalOp) :
  ∃ called s,
    run_original Screen_new ops = Some (called, s)
    ∧ (widgets s ≠ [] → single_focus s).
Proof.
  assert (Hrun : ∀ s0, focus_inv s0 →
    ∃ called s, run_original s0 ops = Some (called, s) ∧ focus_inv s).
  { induction ops as [|op rest IH]; intros s0 Hinv; simpl.
    - by eexists _, _.
    - assert (Hstep : ∃ called s1, step_original s0 op = Some (called, s1)
                                   ∧ focus_inv s1).
      { destruct op as [x0 y0 w h k|event]; simpl.
        - eexists _, _. split; [done|]. by apply addWidget_focus_inv.
        - by apply original_handleInput_focus_inv. }
      destruct Hstep as (called & s1 & -> & Hinv1).
      destruct (IH s1 Hinv1) as (called' & s2 & Hrest & Hinv2).
      simpl. rewrite Hrest. simpl. by eexists _, _. }
  destruct (Hrun Screen_new Screen_new_focus_inv) as (called & s & Hs & Hinv).
  exists called, s. split; [done|].
  by destruct Hinv as [[Hnil _] | Hone].
Qed.

(** [addScreen] then [setScreen] in the first refactor: the pushed screen
    is at the old size of the vector, and [setScreen] with that index
    makes it current and clears the display; the screens already there
    keep their indices. *)
Theorem refactor_addScreen_then_setScreen (K : Type) (ui : Refactor.UIManager K)
    (screen : Screen K) :
  Refactor.screens (Refactor.addScreen ui screen)
  !! length (Refactor.screens ui) = Some screen
  ∧ (∀ i s, Refactor.screens ui !! i = Some s →
            Refactor.screens (Refactor.addScreen ui screen) !! i = Some s)
  ∧ Refactor.setScreen (Refactor.addScreen ui screen)
      (vec_size (Refactor.screens ui)) =
      {| Refactor.display := Refactor.display ui ++ [ClearDisplay];
         Refactor.irManager := Refactor.irManager ui;
         Refactor.screens := Refactor.screens ui ++ [screen];
         Refactor.currentScreenIndex := vec_size (Refactor.screens ui) |}.
Proof.
  split; [|split].
  - simpl. by rewrite list_lookup_middle.
  - intros i s Hs. simpl. rewrite lookup_app_l; [done|]. by eapply lookup_lt_Some.
  - unfold Refactor.setScreen, Refactor.addScreen, clearDisplay, vec_size. simpl.
    rewrite length_app. simpl.
    by destruct (Z.ltb_spec (Z.of_nat (length (Refactor.screens ui)))
                   (Z.of_nat (length (Refactor.screens ui) + 1))); [|lia].
Qed.
